(** * A shallow embedding of the session / token broker of [src/server.js]

    The server sits between a browser, the identity provider (MSAL), the
    mail API (Microsoft Graph) and the text-analysis service (Gemini).
    The three external services and [JSON.parse] are not code of the
    repository: they are the fields of an environment record [Env], and
    every handler is a function of that record.  Handlers are written in
    a small state-and-exception monad [M]: the state is the session
    object of the request, the response, and the trace of events (console
    output and calls made to the services); an exception is a thrown
    JavaScript error.

    The analysis calls of [/fetch-emails] run concurrently.  Each one is
    split at its [await]: the part before it runs when [map] calls the
    callback, the part after it when the reply arrives, and the replies
    arrive in an order that a scheduler, a parameter of the handler,
    chooses.

    The embedding follows [src/server.js].  The second copy of the server
    in the repository has the same routes; it differs in the summary text
    of the fallback record, in the log lines of [/login] and [/redirect]
    and in the production redirect URI.  The session cookie is assumed to
    travel with every request of the browser. *)

From Stdlib Require Import ZArith Ascii String Floats.PrimFloat.
From stdpp Require Import base list strings.

Set Warnings "-register-all".
Local Open Scope string_scope.
Local Open Scope list_scope.

(** ** Strings *)

Module Str.

(** The characters that a Rocq string literal cannot hold directly. *)
Definition dquote : string := String "034"%char "".
Definition nl : string := String "010"%char "".
Definition backtick : string := String "096"%char "".

(** [s.replace(/pat/g, '')] for a pattern that is a literal text: scan
    from the left, drop every occurrence, resume after the occurrence. *)
Fixpoint removeAll_from (pat : string) (skip : nat) (s : string) : string :=
  match s with
  | EmptyString => EmptyString
  | String c r =>
      match skip with
      | S k => removeAll_from pat k r
      | O =>
          if (negb (String.eqb pat "") && String.prefix pat s)%bool
          then removeAll_from pat (String.length pat - 1) r
          else String c (removeAll_from pat 0 r)
      end
  end.

Definition removeAll (pat s : string) : string := removeAll_from pat 0 s.

(** [s.replace(/<[^>]*>?/gm, '')]: a match starts at a [<], takes every
    following character that is not [>] (the class is greedy and also
    takes line ends and further [<]), and then the [>] if there is one. *)
Fixpoint stripTags_from (inTag : bool) (s : string) : string :=
  match s with
  | EmptyString => EmptyString
  | String c r =>
      if inTag
      then (if Ascii.eqb c ">" then stripTags_from false r
            else stripTags_from true r)
      else (if Ascii.eqb c "<" then stripTags_from true r
            else String c (stripTags_from false r))
  end.

Definition stripTags (s : string) : string := stripTags_from false s.

Definition bytes (l : list nat) : string :=
  string_of_list_ascii (map ascii_of_nat l).

(** The WhiteSpace and LineTerminator code points of ECMAScript, in the
    UTF-8 encoding that a Rocq string holds. *)
Definition whiteSpace : list string :=
  [ bytes [9]; bytes [10]; bytes [11]; bytes [12]; bytes [13]; bytes [32];
    bytes [194; 160];                       (* U+00A0 *)
    bytes [225; 154; 128];                  (* U+1680 *)
    bytes [226; 128; 128]; bytes [226; 128; 129]; bytes [226; 128; 130];
    bytes [226; 128; 131]; bytes [226; 128; 132]; bytes [226; 128; 133];
    bytes [226; 128; 134]; bytes [226; 128; 135]; bytes [226; 128; 136];
    bytes [226; 128; 137]; bytes [226; 128; 138];   (* U+2000 .. U+200A *)
    bytes [226; 128; 168]; bytes [226; 128; 169];   (* U+2028, U+2029 *)
    bytes [226; 128; 175];                  (* U+202F *)
    bytes [226; 129; 159];                  (* U+205F *)
    bytes [227; 128; 128];                  (* U+3000 *)
    bytes [239; 187; 191] ].                (* U+FEFF *)

Definition drop (n : nat) (s : string) : string :=
  String.substring n (String.length s - n) s.

(** The white space that [s] starts with, if any: its length in bytes. *)
Definition leadingSpace (ws : list string) (s : string) : option nat :=
  String.length <$> List.find (fun w => String.prefix w s) ws.

Fixpoint trimStart_fuel (ws : list string) (fuel : nat) (s : string) : string :=
  match fuel with
  | O => s
  | S fuel' =>
      match leadingSpace ws s with
      | Some n => trimStart_fuel ws fuel' (drop n s)
      | None => s
      end
  end.

Definition rev (s : string) : string :=
  string_of_list_ascii (List.rev (list_ascii_of_string s)).

Definition trimStart (s : string) : string :=
  trimStart_fuel whiteSpace (String.length s) s.

Definition trimEnd (s : string) : string :=
  rev (trimStart_fuel (map rev whiteSpace) (String.length s) (rev s)).

(** [s.trim()] *)
Definition trim (s : string) : string := trimEnd (trimStart s).

End Str.

(** ** Values, errors and the external services *)

(** A JSON value, as [JSON.parse] produces it and [res.json] sends it. *)
Inductive JSValue : Type :=
| JNull
| JBool (b : bool)
| JNum (x : float)
| JStr (s : string)
| JArr (items : list JSValue)
| JObj (fields : list (string * JSValue)).

(** The account descriptor of the identity provider: an object whose
    fields the server never reads. *)
Definition Account : Type := list (string * JSValue).

(** Errors of [@azure/msal-node].  [InteractionRequiredAuthError] is the
    class the [/fetch-emails] handler tests with [instanceof]. *)
Inductive MsalError : Type :=
| InteractionRequiredAuthError (errorCode errorMessage : string)
| AuthError (errorCode errorMessage : string).

Record GraphError : Type :=
  { statusCode : Z; code : string; message : string }.

Inductive Thrown : Type :=
| MsalThrown (e : MsalError)
| GraphThrown (e : GraphError)
| GeminiThrown (msg : string)
| SyntaxError (msg : string)
| TypeError (msg : string).

(** [error instanceof msal.InteractionRequiredAuthError] *)
Definition instanceofInteractionRequired (error : Thrown) : bool :=
  match error with
  | MsalThrown (InteractionRequiredAuthError _ _) => true
  | _ => false
  end.

(** [AuthenticationResult]: the handlers read [account] and [accessToken];
    [account] is [null] when the provider returns none. *)
Record AuthenticationResult : Type :=
  { accessToken : string; account : option Account }.

(** A message of [/me/messages] with the selected fields
    [id,subject,from,receivedDateTime,body]. *)
Record ItemBody : Type := { contentType : string; content : string }.

Record MailItem : Type :=
  { id : string;
    subject : string;
    from : JSValue;
    receivedDateTime : string;
    body : ItemBody }.

(** The request that [messagesRequest.get()] sends. *)
Record MessagesRequest : Type :=
  { path : string; select : string; top : nat; search : option string }.

(** [result.response] of the analysis service; [text()] throws ([inl],
    with the message) when the service blocked the answer. *)
Record GenerateContentResult : Type :=
  { text : string + string }.

Record Env : Type :=
  { NODE_ENV : option string;
    (** [pca.getAuthCodeUrl] *)
    getAuthCodeUrl : MsalError + string;
    (** [pca.acquireTokenByCode], by [req.query.code] *)
    acquireTokenByCode : option string -> MsalError + AuthenticationResult;
    (** [pca.acquireTokenSilent], by the account of the session *)
    acquireTokenSilent : Account -> MsalError + AuthenticationResult;
    (** the mail API, by the bearer token and the request *)
    graphGet : string -> MessagesRequest -> GraphError + list MailItem;
    (** [model.generateContent], by the number of the call in the batch
        and the prompt; [inl] is a rejected call *)
    generateContent : nat -> string -> string + GenerateContentResult;
    (** [JSON.parse]; [inl] is the message of a thrown [SyntaxError] *)
    JSON_parse : string -> string + JSValue }.

(** ** The handler monad *)

(** [req.session]; [account] is absent ([undefined] or [null]) or an
    object. *)
Record Session : Type := { sessionAccount : option Account }.

Inductive Body : Type :=
| BText (s : string)
| BJson (v : JSValue)
| BError (e : Thrown)
| BLocation (url : string).

Record Response : Type := { status : nat; payload : Body }.

Inductive Event : Type :=
| ConsoleLog (line : string)
| ConsoleError (label : option string) (error : Thrown)
| AuthCodeUrlCall (redirect : string)
| TokenByCodeCall (code : option string)
| TokenSilentCall (acct : Account)
| GraphCall (token : string) (request : MessagesRequest)
| GeminiCall (k : nat) (prompt : string).

(** What a handler can change: the session object of the request ([None]
    once it is destroyed), whether it was assigned to, the response, and
    the trace of events, oldest first. *)
Record HState : Type :=
  { req_session : option Session;
    dirty : bool;
    sent : option Response;
    events : list Event }.

Definition M (A : Type) : Type := HState -> (Thrown + A) * HState.

Definition ret {A} (a : A) : M A := fun st => (inr a, st).

Definition bind {A B} (m : M A) (k : A -> M B) : M B :=
  fun st =>
    match m st with
    | (inr a, st') => k a st'
    | (inl e, st') => (inl e, st')
    end.

Definition throw {A} (e : Thrown) : M A := fun st => (inl e, st).

(** [try { body } catch (error) { handler }]: what [body] did to the
    state before it threw stays done. *)
Definition tryCatch {A} (body : M A) (handler : Thrown -> M A) : M A :=
  fun st =>
    match body st with
    | (inr a, st') => (inr a, st')
    | (inl e, st') => handler e st'
    end.

Declare Scope handler_scope.
Delimit Scope handler_scope with handler.
Notation "x <- m ;; k" := (bind m (fun x => k))
  (at level 100, m at next level, right associativity) : handler_scope.
Notation "m ;; k" := (bind m (fun _ => k))
  (at level 100, right associativity) : handler_scope.
Local Open Scope handler_scope.

Definition emit (e : Event) : M unit :=
  fun st =>
    (inr tt, {| req_session := req_session st; dirty := dirty st;
                sent := sent st; events := events st ++ [e] |}).

Definition console_log (line : string) : M unit := emit (ConsoleLog line).

Definition console_error (label : option string) (error : Thrown) : M unit :=
  emit (ConsoleError label error).

(** [await p] for a promise of a service: its value, or its rejection
    thrown. *)
Definition await {E A} (wrap : E -> Thrown) (p : E + A) : M A :=
  match p with
  | inr a => ret a
  | inl e => throw (wrap e)
  end.

(** [res.status(code).send(body)], [res.json], [res.redirect] *)
Definition res_send (code : nat) (b : Body) : M unit :=
  fun st =>
    (inr tt, {| req_session := req_session st; dirty := dirty st;
                sent := Some {| status := code; payload := b |};
                events := events st |}).

(** [req.session.account]: a [TypeError] when the session is gone. *)
Definition session_account : M (option Account) :=
  fun st =>
    match req_session st with
    | Some s => (inr (sessionAccount s), st)
    | None =>
        (inl (TypeError "Cannot read properties of undefined (reading 'account')"), st)
    end.

(** [req.session.account = a] *)
Definition set_session_account (a : option Account) : M unit :=
  fun st =>
    match req_session st with
    | Some _ =>
        (inr tt, {| req_session := Some {| sessionAccount := a |};
                    dirty := true; sent := sent st; events := events st |})
    | None =>
        (inl (TypeError "Cannot set properties of undefined (setting 'account')"), st)
    end.

(** [req.session.destroy(callback)]: the session leaves the store and the
    request, then the callback runs. *)
Definition session_destroy (callback : M unit) : M unit :=
  fun st =>
    match req_session st with
    | Some _ =>
        callback {| req_session := None; dirty := dirty st;
                    sent := sent st; events := events st |}
    | None =>
        (inl (TypeError "Cannot read properties of undefined (reading 'destroy')"), st)
    end.

(** ** Configuration (server.js:27-41) *)

Definition isProduction (env : Env) : bool :=
  match NODE_ENV env with
  | Some v => String.eqb v "production"
  | None => false
  end.

Definition redirectUri (env : Env) : string :=
  if isProduction env
  then "https://backend-1iqu.onrender.com/redirect"
  else "http://localhost:3000/redirect".

Definition scopes : list string := ["Mail.Read"; "User.Read"; "offline_access"].

(** ** The analysis client (server.js:48-74) *)

Definition quoted (s : string) : string := Str.dquote +:+ s +:+ Str.dquote.

Definition promptLines (emailContent : string) : list string :=
  let ind := "        " in
  [ "";
    ind +:+ "Analyze the following construction-related email. Extract key information and respond ONLY with a valid JSON object.";
    ind +:+ "The JSON object must have these exact keys: " +:+ quoted "summary"
        +:+ ", " +:+ quoted "actionItems" +:+ ", " +:+ quoted "sentiment"
        +:+ ", and " +:+ quoted "docType" +:+ ".";
    ind +:+ "- " +:+ quoted "summary"
        +:+ ": A concise, professional summary of the email's main purpose.";
    ind +:+ "- " +:+ quoted "actionItems"
        +:+ ": An array of strings, with each string being a specific, actionable task, question, or deadline. If no action items, return an empty array.";
    ind +:+ "- " +:+ quoted "sentiment" +:+ ": Classify the sentiment as "
        +:+ quoted "Positive" +:+ ", " +:+ quoted "Negative" +:+ ", or "
        +:+ quoted "Neutral" +:+ ".";
    ind +:+ "- " +:+ quoted "docType" +:+ ": Classify the document type (e.g., "
        +:+ quoted "RFI" +:+ ", " +:+ quoted "Change Order" +:+ ", "
        +:+ quoted "Submittal" +:+ ", " +:+ quoted "Invoice" +:+ ", "
        +:+ quoted "General Correspondence" +:+ ").";
    "";
    ind +:+ "Email Content:";
    ind +:+ "---";
    ind +:+ emailContent;
    ind +:+ "---";
    "    " ].

Definition prompt (emailContent : string) : string :=
  String.concat Str.nl (promptLines emailContent).

(** The record that the [catch] branch returns. *)
Definition fallback : JSValue :=
  JObj [ ("summary", JStr "AI analysis failed.");
         ("actionItems", JArr []);
         ("sentiment", JStr "Neutral");
         ("docType", JStr "Unknown") ].

Definition fence : string := Str.backtick +:+ Str.backtick +:+ Str.backtick.

(** [text.replace(/```json/g, '').replace(/```/g, '').trim()] *)
Definition jsonString (text : string) : string :=
  Str.trim (Str.removeAll fence (Str.removeAll (fence +:+ "json") text)).

(** [getGeminiAnalysis] up to its first [await]: the log line and the
    request to the service, whose reply arrives later. *)
Definition geminiRequest (env : Env) (k : nat) (emailContent : string)
  : M (string + GenerateContentResult) :=
  console_log "Sending content to Gemini for real analysis..." ;;
  emit (GeminiCall k (prompt emailContent)) ;;
  ret (generateContent env k (prompt emailContent)).

(** [getGeminiAnalysis] from the first [await] on, inside its [try]. *)
Definition geminiResume (env : Env) (reply : string + GenerateContentResult)
  : M JSValue :=
  tryCatch
    ( result <- await GeminiThrown reply ;;
      text <- await GeminiThrown (text result) ;;
      await SyntaxError (JSON_parse env (jsonString text)) )
    (fun error =>
       console_error (Some "Error calling Gemini API:") error ;;
       ret fallback).

Definition getGeminiAnalysis (env : Env) (k : nat) (emailContent : string)
  : M JSValue :=
  reply <- geminiRequest env k emailContent ;;
  geminiResume env reply.

(** ** Routes (server.js:78-155) *)

Definition login (env : Env) : M unit :=
  console_log "--- LOGIN ATTEMPT ---" ;;
  console_log ("NODE_ENV is: " +:+ default "undefined" (NODE_ENV env)) ;;
  console_log ("Generated redirectUri is: " +:+ redirectUri env) ;;
  emit (AuthCodeUrlCall (redirectUri env)) ;;
  match getAuthCodeUrl env with
  | inr response => res_send 302 (BLocation response)
  | inl error =>
      console_error (Some "Error getting auth code URL:") (MsalThrown error) ;;
      res_send 500 (BError (MsalThrown error))
  end.

Definition redirect (env : Env) (code : option string) : M unit :=
  console_log "--- REDIRECT HIT ---" ;;
  emit (TokenByCodeCall code) ;;
  tryCatch
    ( response <- await MsalThrown (acquireTokenByCode env code) ;;
      set_session_account (account response) ;;
      res_send 200 (BText "<script>window.close();</script>") )
    (fun error =>
       console_error (Some "Error acquiring token by code:") error ;;
       res_send 500 (BError error)).

Definition logout : M unit :=
  session_destroy (res_send 200 (BText "Successfully logged out")).

Definition me : M unit :=
  a <- session_account ;;
  match a with
  | Some acct =>
      res_send 200 (BJson (JObj [("loggedIn", JBool true); ("account", JObj acct)]))
  | None =>
      res_send 200 (BJson (JObj [("loggedIn", JBool false)]))
  end.

(** *** The fan-out of [/fetch-emails] (server.js:140-146) *)

(** The fields that [{...email, analysis}] spreads. *)
Definition mailFields (email : MailItem) : list (string * JSValue) :=
  [ ("id", JStr (id email));
    ("subject", JStr (subject email));
    ("from", from email);
    ("receivedDateTime", JStr (receivedDateTime email));
    ("body", JObj [ ("contentType", JStr (contentType (body email)));
                    ("content", JStr (content (body email))) ]) ].

Definition enrich (email : MailItem) (analysis : JSValue) : JSValue :=
  JObj (mailFields email ++ [("analysis", analysis)]).

Definition contentToAnalyze (email : MailItem) : string :=
  let cleanBody := Str.stripTags (content (body email)) in
  "Subject: " +:+ subject email +:+ Str.nl +:+ "Body: " +:+ cleanBody.

(** One call of the [async] callback of [messages.value.map], suspended
    at the [await] inside [getGeminiAnalysis]: the index of its promise
    in the array, its message, and the reply it waits for. *)
Record Task : Type :=
  { slot : nat; email : MailItem; reply : string + GenerateContentResult }.

(** [map] runs each callback up to that [await], in the order of the
    array. *)
Fixpoint startAll (env : Env) (k : nat) (emails : list MailItem) : M (list Task) :=
  match emails with
  | [] => ret []
  | email :: rest =>
      reply <- geminiRequest env k (contentToAnalyze email) ;;
      tasks <- startAll env (S k) rest ;;
      ret ({| slot := k; email := email; reply := reply |} :: tasks)
  end.

(** The rest of a callback, run when its reply arrives. *)
Definition finishTask (env : Env) (t : Task) : M JSValue :=
  analysis <- geminiResume env (reply t) ;;
  ret (enrich (email t) analysis).

(** The replies arrive in any order: at each step the scheduler names one
    of the suspended callbacks ([choice mod pending]); the callback runs
    to its end and [Promise.all] stores its value at the index of its
    promise. *)
Fixpoint settle (env : Env) (fuel : nat) (sched : list nat)
    (pending : list Task) (values : list (option JSValue))
  : M (list (option JSValue)) :=
  match fuel with
  | O => ret values
  | S fuel' =>
      let c := hd 0 sched `mod` length pending in
      match pending !! c with
      | None => ret values
      | Some t =>
          v <- finishTask env t ;;
          settle env fuel' (tl sched) (delete c pending) (<[slot t := Some v]> values)
      end
  end.

(** [await Promise.all(promises)]: the array of values once every promise
    has one ([None]: it stays pending). *)
Definition Promise_all (env : Env) (sched : list nat) (tasks : list Task)
  : M (option (list JSValue)) :=
  values <- settle env (length tasks) sched tasks (replicate (length tasks) None) ;;
  ret (mapM (fun v : option JSValue => v) values).

(** *** [POST /fetch-emails] (server.js:125-155) *)

(** [if (searchQuery)] for a value that is absent or a string. *)
Definition truthy (searchQuery : option string) : bool :=
  match searchQuery with
  | Some q => negb (String.eqb q "")
  | None => false
  end.

Definition messagesRequest (searchQuery : option string) : MessagesRequest :=
  let request :=
    {| path := "/me/messages";
       select := "id,subject,from,receivedDateTime,body";
       top := 10;
       search := None |} in
  if truthy searchQuery
  then {| path := path request; select := select request; top := top request;
          search := Some (quoted (default "" searchQuery)) |}
  else request.

Definition fetch_emails (env : Env) (sched : list nat)
    (searchQuery : option string) : M unit :=
  a <- session_account ;;
  match a with
  | None => res_send 401 (BText "User not authenticated.")
  | Some acct =>
      tryCatch
        ( emit (TokenSilentCall acct) ;;
          tokenResponse <- await MsalThrown (acquireTokenSilent env acct) ;;
          let accessToken := accessToken tokenResponse in
          let request := messagesRequest searchQuery in
          emit (GraphCall accessToken request) ;;
          messages <- await GraphThrown (graphGet env accessToken request) ;;
          analysisPromises <- startAll env 0 messages ;;
          analyzedEmails <- Promise_all env sched analysisPromises ;;
          match analyzedEmails with
          | Some l => res_send 200 (BJson (JArr l))
          | None => ret tt
          end )
        (fun error =>
           if instanceofInteractionRequired error
           then res_send 401 (BText "Session expired. Please log in again.")
           else
             console_error None error ;;
             res_send 500 (BText "Error fetching or analyzing emails."))
  end.

(** ** One request against the session store

    [express-session] with [resave: false, saveUninitialized: false]
    (server.js:20-25): the request gets the stored session of its cookie,
    or a new empty one; after the handler the session is removed from the
    store if it was destroyed, written if it was assigned to, and left as
    it was otherwise.  The store is seen from one browser: its entry, if
    it has one. *)

Record Outcome : Type :=
  { stored : option Session;
    response : option Response;
    trace : list Event;
    uncaught : option Thrown }.

Definition serve (store : option Session) (handler : M unit) : Outcome :=
  let session := default {| sessionAccount := None |} store in
  let '(r, st) :=
    handler {| req_session := Some session; dirty := false;
               sent := None; events := [] |} in
  {| stored :=
       match req_session st with
       | None => None
       | Some s => if dirty st then Some s else store
       end;
     response := sent st;
     trace := events st;
     uncaught := match r with inl e => Some e | inr _ => None end |}.

(** The identity that the store holds for the browser. *)
Definition identity (store : option Session) : option Account :=
  store ≫= sessionAccount.

(** What the console shows of a trace. *)
Definition isConsole (e : Event) : bool :=
  match e with
  | ConsoleLog _ | ConsoleError _ _ => true
  | _ => false
  end.

Definition console (t : list Event) : list Event := List.filter isConsole t.

(** ** A concrete environment

    The scenario of the specification: Alice is signed in, the mail API
    returns three messages, the analysis of the second one is rejected. *)

Module Demo.

Definition alice : Account := [("id", JStr "u1"); ("name", JStr "Alice")].

Definition mail (n subj html : string) : MailItem :=
  {| id := n; subject := subj;
     from := JObj [("emailAddress", JObj [("address", JStr "pm@site.example")])];
     receivedDateTime := "2024-05-01T09:00:00Z";
     body := {| contentType := "html"; content := html |} |}.

Definition inbox : list MailItem :=
  [ mail "m1" "RFI 12" "<p>Beam size on S-102?</p>";
    mail "m2" "Invoice" "<div>Invoice 7 attached</div>";
    mail "m3" "Thanks" "All good" ].

Definition goodText : string :=
  "{" +:+ quoted "summary" +:+ ":" +:+ quoted "ok" +:+ ","
      +:+ quoted "actionItems" +:+ ":[],"
      +:+ quoted "sentiment" +:+ ":" +:+ quoted "Positive" +:+ ","
      +:+ quoted "docType" +:+ ":" +:+ quoted "RFI" +:+ "}".

Definition good : JSValue :=
  JObj [ ("summary", JStr "ok"); ("actionItems", JArr []);
         ("sentiment", JStr "Positive"); ("docType", JStr "RFI") ].

(** [JSON.parse] on the texts that occur below. *)
Definition parse (s : string) : string + JSValue :=
  if String.eqb s goodText then inr good
  else if String.eqb s "null" then inr JNull
  else if String.eqb s "{}" then inr (JObj [])
  else inl "Unexpected token".

Definition answer (t : string) : string + GenerateContentResult :=
  inr {| text := inr t |}.

Definition env : Env :=
  {| NODE_ENV := None;
     getAuthCodeUrl := inr "https://login.microsoftonline.com/common/oauth2/v2.0/authorize";
     acquireTokenByCode := fun code =>
       match code with
       | Some "validcode" => inr {| accessToken := "tok-1"; account := Some alice |}
       | _ => inl (AuthError "invalid_grant" "The code is malformed or expired.")
       end;
     acquireTokenSilent := fun _ =>
       inr {| accessToken := "tok-2"; account := Some alice |};
     graphGet := fun _ _ => inr inbox;
     generateContent := fun k _ =>
       match k with
       | 1 => inl "fetch failed"
       | _ => answer (fence +:+ "json" +:+ Str.nl +:+ goodText +:+ Str.nl +:+ fence)
       end;
     JSON_parse := parse |}.

Definition signedIn : option Session := Some {| sessionAccount := Some alice |}.

End Demo.

Module DemoOffSchema.

(** The service answers with the JSON text of an empty object. *)
Definition env : Env :=
  {| NODE_ENV := NODE_ENV Demo.env;
     getAuthCodeUrl := getAuthCodeUrl Demo.env;
     acquireTokenByCode := acquireTokenByCode Demo.env;
     acquireTokenSilent := acquireTokenSilent Demo.env;
     graphGet := graphGet Demo.env;
     generateContent := fun _ _ => Demo.answer "{}";
     JSON_parse := Demo.parse |}.

End DemoOffSchema.

Module DemoExpired.

(** The refresh token of Alice was revoked. *)
Definition env : Env :=
  {| NODE_ENV := NODE_ENV Demo.env;
     getAuthCodeUrl := getAuthCodeUrl Demo.env;
     acquireTokenByCode := acquireTokenByCode Demo.env;
     acquireTokenSilent := fun _ =>
       inl (InteractionRequiredAuthError "invalid_grant" "AADSTS50173");
     graphGet := graphGet Demo.env;
     generateContent := generateContent Demo.env;
     JSON_parse := Demo.parse |}.

End DemoExpired.

Module DemoRotated.

(** The environment of [Demo] after the provider rotated its tokens. *)
Definition env : Env :=
  {| NODE_ENV := NODE_ENV Demo.env;
     getAuthCodeUrl := getAuthCodeUrl Demo.env;
     acquireTokenByCode := fun code =>
       match acquireTokenByCode Demo.env code with
       | inr r => inr {| accessToken := "rotated-1"; account := account r |}
       | inl e => inl e
       end;
     acquireTokenSilent := fun _ =>
       inr {| accessToken := "rotated-2"; account := Some Demo.alice |};
     graphGet := graphGet Demo.env;
     generateContent := generateContent Demo.env;
     JSON_parse := Demo.parse |}.

End DemoRotated.

Module DemoFlaky.

(** Every call to the analysis service is rejected, each with a message
    of its own. *)
Definition env : Env :=
  {| NODE_ENV := NODE_ENV Demo.env;
     getAuthCodeUrl := getAuthCodeUrl Demo.env;
     acquireTokenByCode := acquireTokenByCode Demo.env;
     acquireTokenSilent := acquireTokenSilent Demo.env;
     graphGet := graphGet Demo.env;
     generateContent := fun k _ =>
       match k with
       | 0 => inl "timeout"
       | 1 => inl "fetch failed"
       | _ => inl "quota exceeded"
       end;
     JSON_parse := Demo.parse |}.

End DemoFlaky.

(** ** What the analysis client computes *)

Definition addEvents (st : HState) (l : list Event) : HState :=
  {| req_session := req_session st; dirty := dirty st;
     sent := sent st; events := events st ++ l |}.

(** The body of the [try] of [getGeminiAnalysis], as a value: the parsed
    answer, or what was thrown on the way to it. *)
Definition attempt (env : Env) (reply : string + GenerateContentResult)
  : Thrown + JSValue :=
  match reply with
  | inl m => inl (GeminiThrown m)
  | inr result =>
      match text result with
      | inl m => inl (GeminiThrown m)
      | inr t =>
          match JSON_parse env (jsonString t) with
          | inl m => inl (SyntaxError m)
          | inr v => inr v
          end
      end
  end.

Definition analysisOf (env : Env) (reply : string + GenerateContentResult)
  : JSValue :=
  match attempt env reply with
  | inr v => v
  | inl _ => fallback
  end.

Definition resumeLog (env : Env) (reply : string + GenerateContentResult)
  : list Event :=
  match attempt env reply with
  | inr _ => []
  | inl e => [ConsoleError (Some "Error calling Gemini API:") e]
  end.

Definition requestLog (k : nat) (emailContent : string) : list Event :=
  [ ConsoleLog "Sending content to Gemini for real analysis...";
    GeminiCall k (prompt emailContent) ].

(** ** What the fan-out computes *)

Definition taskOf (env : Env) (k : nat) (email : MailItem) : Task :=
  {| slot := k; email := email;
     reply := generateContent env k (prompt (contentToAnalyze email)) |}.

Fixpoint tasksFrom (env : Env) (k : nat) (emails : list MailItem) : list Task :=
  match emails with
  | [] => []
  | email :: rest => taskOf env k email :: tasksFrom env (S k) rest
  end.

Fixpoint startLog (k : nat) (emails : list MailItem) : list Event :=
  match emails with
  | [] => []
  | email :: rest => requestLog k (contentToAnalyze email) ++ startLog (S k) rest
  end.

Definition taskValue (env : Env) (t : Task) : JSValue :=
  enrich (email t) (analysisOf env (reply t)).

(** The enriched messages, in the order of the fetch. *)
Definition analyzed (env : Env) (emails : list MailItem) : list JSValue :=
  taskValue env <$> tasksFrom env 0 emails.

(** Every pending task written into the array of values. *)
Definition fill (env : Env) (pending : list Task)
    (values : list (option JSValue)) : list (option JSValue) :=
  foldr (fun t vs => <[slot t := Some (taskValue env t)]> vs) values pending.

(** The console lines of the callbacks, in the order the scheduler ends
    them. *)
Fixpoint settleLog (env : Env) (fuel : nat) (sched : list nat)
    (pending : list Task) : list Event :=
  match fuel with
  | O => []
  | S fuel' =>
      let c := hd 0 sched `mod` length pending in
      match pending !! c with
      | None => []
      | Some t =>
          resumeLog env (reply t)
          ++ settleLog env fuel' (tl sched) (delete c pending)
      end
  end.

(** ** What [/fetch-emails] answers *)

(** The failure kinds of the handler. *)
Inductive Failure : Type :=
| Unauthenticated
| ReauthRequired
| TokenFailure
| MailFailure.

(** Where a request fails, read off the session and the services, or the
    messages that the mail API returns. *)
Definition classify (env : Env) (store : option Session)
    (searchQuery : option string) : Failure + list MailItem :=
  match identity store with
  | None => inl Unauthenticated
  | Some acct =>
      match acquireTokenSilent env acct with
      | inl (InteractionRequiredAuthError _ _) => inl ReauthRequired
      | inl (AuthError _ _) => inl TokenFailure
      | inr tokenResponse =>
          match graphGet env (accessToken tokenResponse)
                  (messagesRequest searchQuery) with
          | inl _ => inl MailFailure
          | inr emails => inr emails
          end
      end
  end.

Definition notAuthenticated : Response :=
  {| status := 401; payload := BText "User not authenticated." |}.

Definition sessionExpired : Response :=
  {| status := 401; payload := BText "Session expired. Please log in again." |}.

Definition serverError : Response :=
  {| status := 500; payload := BText "Error fetching or analyzing emails." |}.

Definition errorResponse (f : Failure) : Response :=
  match f with
  | Unauthenticated => notAuthenticated
  | ReauthRequired => sessionExpired
  | TokenFailure | MailFailure => serverError
  end.

Definition expectedResponse (env : Env) (store : option Session)
    (searchQuery : option string) : Response :=
  match classify env store searchQuery with
  | inl f => errorResponse f
  | inr emails =>
      {| status := 200; payload := BJson (JArr (analyzed env emails)) |}
  end.

Definition initial (store : option Session) : HState :=
  {| req_session := Some (default {| sessionAccount := None |} store);
     dirty := false; sent := None; events := [] |}.

(** The trace of the handler: the calls to the services and the console
    lines, oldest first. *)
Definition fetchTrace (env : Env) (sched : list nat) (store : option Session)
    (searchQuery : option string) : list Event :=
  match identity store with
  | None => []
  | Some acct =>
      TokenSilentCall acct ::
      match acquireTokenSilent env acct with
      | inl (InteractionRequiredAuthError _ _) => []
      | inl e => [ConsoleError None (MsalThrown e)]
      | inr tokenResponse =>
          GraphCall (accessToken tokenResponse) (messagesRequest searchQuery) ::
          match graphGet env (accessToken tokenResponse)
                  (messagesRequest searchQuery) with
          | inl e => [ConsoleError None (GraphThrown e)]
          | inr emails =>
              startLog 0 emails
              ++ settleLog env (length emails) sched (tasksFrom env 0 emails)
          end
      end
  end.

(** ** The server *)

Inductive Request : Type :=
| GET_login
| GET_redirect (code : option string)
| GET_logout
| GET_me
| POST_fetch_emails (searchQuery : option string).

Definition route (env : Env) (sched : list nat) (r : Request) : M unit :=
  match r with
  | GET_login => login env
  | GET_redirect code => redirect env code
  | GET_logout => logout
  | GET_me => me
  | POST_fetch_emails searchQuery => fetch_emails env sched searchQuery
  end.

(** One request of a browser whose entry in the session store is [store];
    [sched] is the order in which the replies of the analysis service
    arrive. *)
Definition handle (env : Env) (sched : list nat) (store : option Session)
    (r : Request) : Outcome :=
  serve store (route env sched r).

(** The body of [/me]. *)
Definition meBody (who : option Account) : JSValue :=
  match who with
  | Some acct => JObj [("loggedIn", JBool true); ("account", JObj acct)]
  | None => JObj [("loggedIn", JBool false)]
  end.

(** The keys of an object. *)
Definition keys (v : JSValue) : list string :=
  match v with
  | JObj fields => fst <$> fields
  | _ => []
  end.

(** The routes that assign to the session or destroy it. *)
Definition writesSession (r : Request) : bool :=
  match r with
  | GET_redirect _ | GET_logout => true
  | _ => false
  end.

(** ** Failing analyses *)

(** The ways the [try] of [getGeminiAnalysis] is left by an exception:
    the call to the service is rejected (a network error), [text()]
    throws, or the cleaned text is not JSON. *)
Inductive Failed (env : Env) : string + GenerateContentResult -> Prop :=
| failed_call m : Failed env (inl m)
| failed_text m : Failed env (inr {| text := inl m |})
| failed_parse t m :
    JSON_parse env (jsonString t) = inl m ->
    Failed env (inr {| text := inr t |}).

(** The shape that the prompt asks for: exactly the keys [summary],
    [actionItems], [sentiment] and [docType], a text, an array of texts,
    one of three words, and a text. *)
Definition field (k : string) (v : JSValue) : option JSValue :=
  match v with
  | JObj fields => snd <$> List.find (fun kv => String.eqb (fst kv) k) fields
  | _ => None
  end.

Definition isText (v : JSValue) : bool :=
  match v with JStr _ => true | _ => false end.

Definition matchesSchema (v : JSValue) : bool :=
  (Nat.eqb (length (keys v)) 4)
  && from_option isText false (field "summary" v)
  && from_option
       (fun a => match a with JArr items => forallb isText items | _ => false end)
       false (field "actionItems" v)
  && from_option
       (fun s => match s with
                 | JStr w => String.eqb w "Positive" || String.eqb w "Negative"
                             || String.eqb w "Neutral"
                 | _ => false
                 end)
       false (field "sentiment" v)
  && from_option isText false (field "docType" v).

(** ** The search filter *)

(** The requests that a trace sends to the mail API, with their bearer
    tokens. *)
Definition graphCalls (t : list Event) : list (string * MessagesRequest) :=
  omap (fun e => match e with
                 | GraphCall token request => Some (token, request)
                 | _ => None
                 end) t.

(** ** The access token stays inside *)

(** Two answers of the identity provider that differ at most in the
    access token. *)
Definition sameButToken (a b : MsalError + AuthenticationResult) : Prop :=
  match a, b with
  | inl e1, inl e2 => e1 = e2
  | inr r1, inr r2 => account r1 = account r2
  | _, _ => False
  end.

(** Two environments that differ at most in the access tokens that the
    identity provider issues; the mail API answers under the one token
    what it answers under the other. *)
Record TokenVariant (env1 env2 : Env) : Prop :=
  { tv_node : NODE_ENV env1 = NODE_ENV env2;
    tv_url : getAuthCodeUrl env1 = getAuthCodeUrl env2;
    tv_code : forall code,
      sameButToken (acquireTokenByCode env1 code) (acquireTokenByCode env2 code);
    tv_silent : forall acct,
      sameButToken (acquireTokenSilent env1 acct) (acquireTokenSilent env2 acct);
    tv_graph : forall acct r1 r2 request,
      acquireTokenSilent env1 acct = inr r1 ->
      acquireTokenSilent env2 acct = inr r2 ->
      graphGet env1 (accessToken r1) request = graphGet env2 (accessToken r2) request;
    tv_gemini : forall k p, generateContent env1 k p = generateContent env2 k p;
    tv_parse : forall s, JSON_parse env1 s = JSON_parse env2 s }.

(** A trace without the bearer tokens of the requests to the mail API. *)
Definition redact (e : Event) : Event :=
  match e with
  | GraphCall _ request => GraphCall "" request
  | _ => e
  end.

(** ** Sequences of requests *)

(** The requests of one browser, one after the other, each with the
    schedule of its analysis replies: the store they leave. *)
Definition runAll (env : Env) (store : option Session)
    (reqs : list (list nat * Request)) : option Session :=
  foldl (fun st sr => stored (handle env sr.1 st sr.2)) store reqs.

(** The calls to the services in a trace, without the console lines. *)
Definition serviceCalls (t : list Event) : list Event :=
  List.filter (fun e => negb (isConsole e)) t.

(** The calls that need a signed-in user: silent renewal, the mail API
    and the analysis service. *)
Definition isProtectedCall (e : Event) : bool :=
  match e with
  | TokenSilentCall _ | GraphCall _ _ | GeminiCall _ _ => true
  | _ => false
  end.

Module DemoNoAccount.

(** The code exchange succeeds and the provider returns no account. *)
Definition env : Env :=
  {| NODE_ENV := Some "production";
     getAuthCodeUrl := inl (AuthError "endpoints_resolution_error" "no network");
     acquireTokenByCode := fun _ => inr {| accessToken := "tok-3"; account := None |};
     acquireTokenSilent := acquireTokenSilent Demo.env;
     graphGet := fun _ _ => inl {| statusCode := 403; code := "ErrorAccessDenied";
                                   message := "Access is denied." |};
     generateContent := generateContent Demo.env;
     JSON_parse := Demo.parse |}.

End DemoNoAccount.

(** ** Counting the failed analyses *)

(** The [try] of [getGeminiAnalysis] is left by an exception, as a test. *)
Definition failedb (env : Env) (reply : string + GenerateContentResult) : bool :=
  match attempt env reply with
  | inl _ => true
  | inr _ => false
  end.

(** The line that the [catch] of [getGeminiAnalysis] prints. *)
Definition isAnalysisError (e : Event) : bool :=
  match e with
  | ConsoleError (Some label) _ => String.eqb label "Error calling Gemini API:"
  | _ => false
  end.

(** ** Characters of a text *)

Definition chars (s : string) : list ascii := list_ascii_of_string s.

Definition lt_char : ascii := "<"%char.
Definition gt_char : ascii := ">"%char.
Definition backtick_char : ascii := "096"%char.

(** ** The second copy of the server

    The functions of the second copy that differ from [src/server.js]:
    the production redirect URI, [getGeminiAnalysis] with another summary
    in its fallback record, and [/login] and [/redirect] without their
    console lines. *)

Module Part001.

Definition redirectUri (env : Env) : string :=
  if isProduction env
  then "https://siteweave-ai-backend.onrender.com/redirect"
  else "http://localhost:3000/redirect".

Definition fallback : JSValue :=
  JObj [ ("summary", JStr "AI analysis failed for this email.");
         ("actionItems", JArr []);
         ("sentiment", JStr "Neutral");
         ("docType", JStr "Unknown") ].

Definition geminiResume (env : Env) (reply : string + GenerateContentResult)
  : M JSValue :=
  tryCatch
    ( result <- await GeminiThrown reply ;;
      text <- await GeminiThrown (text result) ;;
      await SyntaxError (JSON_parse env (jsonString text)) )
    (fun error =>
       console_error (Some "Error calling Gemini API:") error ;;
       ret fallback).

Definition getGeminiAnalysis (env : Env) (k : nat) (emailContent : string)
  : M JSValue :=
  reply <- geminiRequest env k emailContent ;;
  geminiResume env reply.

Definition login (env : Env) : M unit :=
  emit (AuthCodeUrlCall (redirectUri env)) ;;
  match getAuthCodeUrl env with
  | inr response => res_send 302 (BLocation response)
  | inl error => res_send 500 (BError (MsalThrown error))
  end.

Definition redirect (env : Env) (code : option string) : M unit :=
  emit (TokenByCodeCall code) ;;
  tryCatch
    ( response <- await MsalThrown (acquireTokenByCode env code) ;;
      set_session_account (account response) ;;
      res_send 200 (BText "<script>window.close();</script>") )
    (fun error => res_send 500 (BError error)).

End Part001.

(** ** The fixed texts of the prompt *)

(** What the template has before [${emailContent}] and after it. *)
Definition promptHead : string :=
  String.concat Str.nl (take 10 (promptLines "")) +:+ Str.nl +:+ "        ".

Definition promptTail : string :=
  Str.nl +:+ "        ---" +:+ Str.nl +:+ "    ".

(** * Proofs *)

(** ** The string functions on examples *)

Example removeAll_fence :
  Str.removeAll "```" "```{}```" = "{}".
Proof. reflexivity. Qed.

Example stripTags_html :
  Str.stripTags "<p>Hi <b>all</b></p> a < b" = "Hi all a ".
Proof. reflexivity. Qed.

Example trim_both :
  Str.trim (Str.nl +:+ "  {} " +:+ Str.nl) = "{}".
Proof. reflexivity. Qed.

(** ** The analysis client and the fan-out, run *)

Lemma addEvents_nil st : addEvents st [] = st.
Proof. destruct st. unfold addEvents. simpl. by rewrite app_nil_r. Qed.

Lemma addEvents_app st l1 l2 :
  addEvents (addEvents st l1) l2 = addEvents st (l1 ++ l2).
Proof. unfold addEvents. simpl. by rewrite app_assoc. Qed.

Lemma geminiRequest_run env k emailContent st :
  geminiRequest env k emailContent st
  = (inr (generateContent env k (prompt emailContent)),
     addEvents st (requestLog k emailContent)).
Proof.
  unfold geminiRequest, console_log, emit, bind, ret, addEvents. simpl.
  by rewrite <- app_assoc.
Qed.

Lemma geminiResume_run env reply st :
  geminiResume env reply st
  = (inr (analysisOf env reply), addEvents st (resumeLog env reply)).
Proof.
  unfold geminiResume, analysisOf, resumeLog, attempt, tryCatch, bind, await.
  destruct reply as [m | [[m | t]]]; simpl; try reflexivity.
  destruct (JSON_parse env (jsonString t)) as [m | v]; simpl.
  - reflexivity.
  - unfold ret. by rewrite addEvents_nil.
Qed.

Lemma getGeminiAnalysis_run env k emailContent st :
  getGeminiAnalysis env k emailContent st
  = (inr (analysisOf env (generateContent env k (prompt emailContent))),
     addEvents st (requestLog k emailContent
                   ++ resumeLog env (generateContent env k (prompt emailContent)))).
Proof.
  unfold getGeminiAnalysis, bind.
  rewrite geminiRequest_run, geminiResume_run. by rewrite addEvents_app.
Qed.

Lemma startAll_run env emails : forall k st,
  startAll env k emails st
  = (inr (tasksFrom env k emails), addEvents st (startLog k emails)).
Proof.
  induction emails as [| email rest IH]; intros k st; simpl.
  - unfold ret. by rewrite addEvents_nil.
  - unfold bind. rewrite geminiRequest_run, IH. unfold ret.
    by rewrite addEvents_app.
Qed.

Lemma tasksFrom_length env emails : forall k,
  length (tasksFrom env k emails) = length emails.
Proof. induction emails; intros k; simpl; [done | by rewrite IHemails]. Qed.

Lemma tasksFrom_slots env emails : forall k,
  slot <$> tasksFrom env k emails = seq k (length emails).
Proof. induction emails; intros k; simpl; [done | by rewrite IHemails]. Qed.


Lemma fill_insert env pending : forall values s v,
  s ∉ slot <$> pending ->
  fill env pending (<[s := v]> values) = <[s := v]> (fill env pending values).
Proof.
  induction pending as [| t rest IH]; intros values s v Hs; simpl; [done |].
  rewrite fmap_cons in Hs. apply not_elem_of_cons in Hs as [Hne Hs].
  rewrite IH by done. by apply list_insert_insert_ne.
Qed.

Lemma fill_delete env pending : forall c t values,
  NoDup (slot <$> pending) ->
  pending !! c = Some t ->
  fill env (delete c pending) (<[slot t := Some (taskValue env t)]> values)
  = fill env pending values.
Proof.
  induction pending as [| t0 rest IH]; intros c t values Hnd Hc; [done |].
  rewrite fmap_cons in Hnd. apply NoDup_cons in Hnd as [Hnotin Hnd].
  destruct c as [| c]; simpl in *.
  - inversion Hc; subst. by apply fill_insert.
  - f_equal. by apply IH.
Qed.

Lemma settle_run env fuel : forall sched pending values st,
  length pending = fuel ->
  NoDup (slot <$> pending) ->
  settle env fuel sched pending values st
  = (inr (fill env pending values),
     addEvents st (settleLog env fuel sched pending)).
Proof.
  induction fuel as [| fuel IH]; intros sched pending values st Hlen Hnd.
  - destruct pending; [| done]. simpl. unfold ret.
    by rewrite addEvents_nil.
  - simpl.
    assert (Hc : hd 0 sched `mod` length pending < length pending).
    { apply Nat.mod_upper_bound. lia. }
    destruct (lookup_lt_is_Some_2 _ _ Hc) as [t Ht]. rewrite Ht.
    unfold finishTask, bind. rewrite geminiResume_run. unfold ret.
    set (c := hd 0 sched `mod` length pending) in *.
    assert (Hlen' : length (delete c pending) = fuel).
    { rewrite length_delete by eauto. lia. }
    assert (Hnd' : NoDup (slot <$> delete c pending)).
    { rewrite list_fmap_delete.
      eapply sublist_NoDup; [done | apply sublist_delete]. }
    rewrite (IH (tl sched) (delete c pending) _ _ Hlen' Hnd').
    rewrite addEvents_app. f_equal. f_equal.
    by apply (fill_delete env pending c t values).
Qed.

Lemma fill_tasksFrom env emails : forall k (filled : list (option JSValue)),
  length filled = k ->
  fill env (tasksFrom env k emails) (filled ++ replicate (length emails) None)
  = filled ++ (Some <$> (taskValue env <$> tasksFrom env k emails)).
Proof.
  induction emails as [| email rest IH]; intros k filled Hk; [done |].
  simpl tasksFrom. simpl length. simpl replicate.
  change (fill env (?t :: ?ts) ?vs)
    with (<[slot t := Some (taskValue env t)]> (fill env ts vs)).
  rewrite (cons_middle None filled), app_assoc.
  rewrite (IH (S k) (filled ++ [None])) by (rewrite length_app; simpl; lia).
  rewrite <- app_assoc. simpl.
  rewrite insert_app_r_alt by (simpl; lia).
  simpl slot. rewrite Hk, Nat.sub_diag. done.
Qed.

Lemma Promise_all_run env sched emails st :
  Promise_all env sched (tasksFrom env 0 emails) st
  = (inr (Some (analyzed env emails)),
     addEvents st (settleLog env (length emails) sched (tasksFrom env 0 emails))).
Proof.
  unfold Promise_all, bind.
  rewrite settle_run; [| done | rewrite tasksFrom_slots; apply NoDup_seq].
  unfold ret. rewrite tasksFrom_length. do 2 f_equal.
  pose proof (fill_tasksFrom env emails 0 [] eq_refl) as Hfill.
  simpl in Hfill. rewrite Hfill.
  by apply mapM_fmap_Some.
Qed.

(** ** [/fetch-emails], run *)

Lemma fetch_emails_run env sched searchQuery store :
  fetch_emails env sched searchQuery (initial store)
  = (inr tt,
     {| req_session := req_session (initial store); dirty := false;
        sent := Some (expectedResponse env store searchQuery);
        events := fetchTrace env sched store searchQuery |}).
Proof.
  unfold expectedResponse, fetchTrace, classify, identity, initial.
  unfold fetch_emails, bind at 1, session_account. simpl.
  destruct store as [[[acct |]] |]; simpl; try reflexivity.
  unfold tryCatch, bind, emit, await. simpl.
  destruct (acquireTokenSilent env acct) as [[c m | c m] | r]; simpl;
    try reflexivity.
  destruct (graphGet env (accessToken r) (messagesRequest searchQuery))
    as [e | emails]; simpl; try reflexivity.
  rewrite startAll_run, Promise_all_run. reflexivity.
Qed.

Lemma serve_fetch_emails env sched searchQuery store :
  serve store (fetch_emails env sched searchQuery)
  = {| stored := store;
       response := Some (expectedResponse env store searchQuery);
       trace := fetchTrace env sched store searchQuery;
       uncaught := None |}.
Proof.
  unfold serve. fold (initial store). rewrite fetch_emails_run. by simpl.
Qed.

(** ** The session routes *)

Lemma handle_me env sched store :
  handle env sched store GET_me
  = {| stored := store;
       response := Some {| status := 200; payload := BJson (meBody (identity store)) |};
       trace := [];
       uncaught := None |}.
Proof. by destruct store as [[[acct |]] |]. Qed.

Lemma handle_logout env sched store :
  handle env sched store GET_logout
  = {| stored := None;
       response := Some {| status := 200; payload := BText "Successfully logged out" |};
       trace := [];
       uncaught := None |}.
Proof. by destruct store. Qed.

Lemma handle_login_stored env sched store :
  stored (handle env sched store GET_login) = store.
Proof.
  unfold handle, serve, route, login, bind, console_log, emit. simpl.
  by destruct (getAuthCodeUrl env).
Qed.

(** C8. For every session without a stored identity, [GET /me] answers
    200 with the body [{loggedIn: false}], which has no [account] field;
    for every session with a stored identity it answers 200 with
    [{loggedIn: true, account}] where [account] is that identity. *)
Theorem me_reports_the_session_identity :
  forall env sched store,
    response (handle env sched store GET_me)
    = Some {| status := 200;
              payload := BJson
                (match identity store with
                 | None => JObj [("loggedIn", JBool false)]
                 | Some acct =>
                     JObj [("loggedIn", JBool true); ("account", JObj acct)]
                 end) |}
    /\ (identity store = None ->
        forall r v, response (handle env sched store GET_me) = Some r ->
                    payload r = BJson v -> "account" ∉ keys v).
Proof.
  intros env sched store. rewrite handle_me. simpl. split.
  - by destruct (identity store).
  - intros Hnone r v [= <-] [= <-]. rewrite Hnone. simpl.
    intros H%list_elem_of_singleton. discriminate H.
Qed.

Lemma me_reports_the_session_identity_witness :
  response (handle Demo.env [] Demo.signedIn GET_me)
  = Some {| status := 200;
            payload := BJson (JObj [("loggedIn", JBool true);
                                    ("account", JObj Demo.alice)]) |}
  /\ forall r v, response (handle Demo.env [] None GET_me) = Some r ->
                 payload r = BJson v -> "account" ∉ keys v.
Proof.
  split.
  - exact (proj1 (me_reports_the_session_identity Demo.env [] Demo.signedIn)).
  - exact (proj2 (me_reports_the_session_identity Demo.env [] None) eq_refl).
Defined.

(** C7. [GET /logout] twice in a row: the second request, on the session
    that the first one cleared, answers 200, throws nothing and leaves
    the store as the first one left it, without an identity.  Clearing a
    session that has no identity answers 200 and throws nothing. *)
Theorem logout_twice_is_logout_once :
  forall env sched store,
    let first := handle env sched store GET_logout in
    let second := handle env sched (stored first) GET_logout in
    response second
    = Some {| status := 200; payload := BText "Successfully logged out" |}
    /\ uncaught second = None
    /\ stored second = stored first
    /\ identity (stored second) = None
    /\ second = first
    /\ response first = response second
    /\ uncaught first = None.
Proof. intros env sched store. by rewrite !handle_logout. Qed.

(** C4. When the code exchange of [/redirect] succeeds with an identity
    record, the session holds that record afterwards, and the next
    [GET /me] of the browser returns it. *)
Theorem redirect_then_me_returns_the_exchanged_identity :
  forall env sched sched' store code result acct,
    acquireTokenByCode env code = inr result ->
    account result = Some acct ->
    let after := stored (handle env sched store (GET_redirect code)) in
    identity after = Some acct
    /\ response (handle env sched' after GET_me)
       = Some {| status := 200;
                 payload := BJson (JObj [("loggedIn", JBool true);
                                         ("account", JObj acct)]) |}.
Proof.
  intros env sched sched' store code result acct Hcode Hacct after.
  assert (Hafter : after = Some {| sessionAccount := Some acct |}).
  { unfold after, handle, serve, route, redirect.
    unfold bind, tryCatch, console_log, emit, await. simpl.
    rewrite Hcode. simpl. by rewrite Hacct. }
  rewrite handle_me, Hafter. by simpl.
Qed.

Lemma redirect_then_me_returns_the_exchanged_identity_witness :
  let after := stored (handle Demo.env [] None (GET_redirect (Some "validcode"))) in
  identity after = Some Demo.alice
  /\ response (handle Demo.env [] after GET_me)
     = Some {| status := 200;
               payload := BJson (JObj [("loggedIn", JBool true);
                                       ("account", JObj Demo.alice)]) |}.
Proof.
  exact (redirect_then_me_returns_the_exchanged_identity
           Demo.env [] [] None (Some "validcode")
           {| accessToken := "tok-1"; account := Some Demo.alice |}
           Demo.alice eq_refl eq_refl).
Defined.

(** C9. [POST /fetch-emails] leaves the session store as it found it,
    with or without an identity and whatever it answers; so do
    [GET /login] and [GET /me]: only [/redirect] and [/logout] write. *)
Theorem fetch_emails_never_writes_the_session :
  forall env sched store,
    (forall searchQuery,
        stored (handle env sched store (POST_fetch_emails searchQuery)) = store)
    /\ (forall r, writesSession r = false ->
                  stored (handle env sched store r) = store).
Proof.
  intros env sched store.
  assert (Hfetch : forall q,
             stored (handle env sched store (POST_fetch_emails q)) = store).
  { intros q. unfold handle, route. by rewrite serve_fetch_emails. }
  split; [exact Hfetch |].
  intros [| code | | | q] Hr; try discriminate Hr.
  - apply handle_login_stored.
  - by rewrite handle_me.
  - apply Hfetch.
Qed.

Lemma fetch_emails_never_writes_the_session_witness :
  stored (handle Demo.env [2; 0; 0] Demo.signedIn (POST_fetch_emails None))
  = Demo.signedIn
  /\ stored (handle Demo.env [] Demo.signedIn GET_me) = Demo.signedIn.
Proof.
  split.
  - exact (proj1 (fetch_emails_never_writes_the_session
                    Demo.env [2; 0; 0] Demo.signedIn) None).
  - exact (proj2 (fetch_emails_never_writes_the_session
                    Demo.env [] Demo.signedIn) GET_me eq_refl).
Defined.

(** C10. A request whose [searchQuery] is the empty string is handled as
    a request without [searchQuery]: no search clause is added to the
    request to the mail API, and the outcome is the same. *)
Theorem empty_search_query_is_no_search_query :
  forall env sched store,
    search (messagesRequest (Some "")) = None
    /\ messagesRequest (Some "") = messagesRequest None
    /\ handle env sched store (POST_fetch_emails (Some ""))
       = handle env sched store (POST_fetch_emails None).
Proof. intros env sched store. repeat split. Qed.

(** ** The fan-out keeps the order of the fetch *)

Example fallback_matchesSchema : matchesSchema fallback = true.
Proof. reflexivity. Qed.

Lemma attempt_failed env reply :
  Failed env reply <-> exists e, attempt env reply = inl e.
Proof.
  split.
  - intros [m | m | t m H]; simpl; [by eexists | by eexists |].
    rewrite H. by eexists.
  - destruct reply as [m | [[m | t]]]; simpl; intros [e He].
    + constructor.
    + constructor.
    + destruct (JSON_parse env (jsonString t)) as [m |] eqn:Hp; [| done].
      by apply (failed_parse env t m).
Qed.






(** The scenario of three messages of which the second analysis is
    rejected: three entries, in the order 1, 2, 3, the second one with
    [docType] "Unknown". *)
Example three_messages_second_analysis_rejected :
  forall sched,
    exists a1 a2 a3,
      response (handle Demo.env sched Demo.signedIn (POST_fetch_emails None))
      = Some {| status := 200; payload := BJson (JArr [a1; a2; a3]) |}
      /\ field "id" a1 = Some (JStr "m1")
      /\ field "id" a2 = Some (JStr "m2")
      /\ field "id" a3 = Some (JStr "m3")
      /\ (field "analysis" a2 ≫= field "docType") = Some (JStr "Unknown").
Proof.
  intros sched. unfold handle, route. rewrite serve_fetch_emails.
  do 3 eexists. split; [by vm_compute | by vm_compute].
Qed.

(** The order in which the analysis calls end shows on the console and
    nowhere in the answer. *)
Example completion_order_shows_on_the_console_only :
  let inOrder :=
    handle DemoFlaky.env [0; 0; 0] Demo.signedIn (POST_fetch_emails None) in
  let reversed :=
    handle DemoFlaky.env [2; 1; 0] Demo.signedIn (POST_fetch_emails None) in
  response inOrder = response reversed
  /\ console (trace inOrder) <> console (trace reversed).
Proof.
  split; [reflexivity |]. intros H. vm_compute in H. discriminate H.
Qed.

(** ** The analysis client never throws *)




(** ** The error mapping of [/fetch-emails] *)

(** C3.  [POST /fetch-emails] maps failures by their kind.  Without an
    identity in the session: 401 "User not authenticated.", and no call
    to any service.  Silent renewal rejected with an
    [InteractionRequiredAuthError]: 401 with another message, and no call
    to the mail API.  Silent renewal rejected otherwise, or the mail API
    failing: 500 with the generic message.  The status is 401 exactly in
    the first two cases. *)
Theorem fetch_emails_error_mapping :
  forall env sched store searchQuery,
    let o := handle env sched store (POST_fetch_emails searchQuery) in
    (identity store = None ->
     response o = Some notAuthenticated /\ trace o = [])
    /\ (forall acct c m,
           identity store = Some acct ->
           acquireTokenSilent env acct = inl (InteractionRequiredAuthError c m) ->
           response o = Some sessionExpired /\ trace o = [TokenSilentCall acct])
    /\ (forall acct c m,
           identity store = Some acct ->
           acquireTokenSilent env acct = inl (AuthError c m) ->
           response o = Some serverError)
    /\ (forall acct tokenResponse e,
           identity store = Some acct ->
           acquireTokenSilent env acct = inr tokenResponse ->
           graphGet env (accessToken tokenResponse) (messagesRequest searchQuery)
           = inl e ->
           response o = Some serverError)
    /\ payload sessionExpired <> payload notAuthenticated
    /\ (exists r, response o = Some r
                  /\ (status r = 401 <->
                      identity store = None
                      \/ exists acct c m,
                          identity store = Some acct
                          /\ acquireTokenSilent env acct
                             = inl (InteractionRequiredAuthError c m))).
Proof.
  intros env sched store searchQuery o.
  unfold o, handle, route. rewrite serve_fetch_emails. simpl.
  unfold expectedResponse, fetchTrace, classify.
  split; [| split; [| split; [| split; [| split]]]].
  - intros Hid. by rewrite Hid.
  - intros acct c m Hid Htok. by rewrite Hid, Htok.
  - intros acct c m Hid Htok. by rewrite Hid, Htok.
  - intros acct r e Hid Htok Hget. by rewrite Hid, Htok, Hget.
  - discriminate.
  - eexists. split; [reflexivity |].
    destruct (identity store) as [acct |]; simpl; [| naive_solver].
    destruct (acquireTokenSilent env acct) as [[c m | c m] | r] eqn:Htok;
      simpl.
    + naive_solver.
    + split; [done |]. intros [? | (a & c' & m' & ? & ?)]; congruence.
    + destruct (graphGet env (accessToken r) (messagesRequest searchQuery));
        simpl; (split; [done |]);
        intros [? | (a & c' & m' & ? & ?)]; congruence.
Qed.

Lemma fetch_emails_error_mapping_witness :
  (response (handle Demo.env [] None (POST_fetch_emails None))
   = Some notAuthenticated
   /\ trace (handle Demo.env [] None (POST_fetch_emails None)) = [])
  /\ (response (handle DemoExpired.env [] Demo.signedIn (POST_fetch_emails None))
      = Some sessionExpired
      /\ trace (handle DemoExpired.env [] Demo.signedIn (POST_fetch_emails None))
         = [TokenSilentCall Demo.alice]).
Proof.
  split.
  - exact (proj1 (fetch_emails_error_mapping Demo.env [] None None) eq_refl).
  - exact (proj1 (proj2 (fetch_emails_error_mapping
                           DemoExpired.env [] Demo.signedIn None))
             Demo.alice "invalid_grant" "AADSTS50173" eq_refl eq_refl).
Defined.

(** ** The search filter *)

Lemma graphCalls_app t1 t2 : graphCalls (t1 ++ t2) = graphCalls t1 ++ graphCalls t2.
Proof. apply omap_app. Qed.

Lemma graphCalls_startLog emails : forall k, graphCalls (startLog k emails) = [].
Proof. induction emails as [| e rest IH]; intros k; simpl; [done | apply IH]. Qed.

Lemma graphCalls_resumeLog env reply : graphCalls (resumeLog env reply) = [].
Proof. unfold resumeLog. by destruct (attempt env reply). Qed.

Lemma graphCalls_settleLog env fuel : forall sched pending,
  graphCalls (settleLog env fuel sched pending) = [].
Proof.
  induction fuel as [| fuel IH]; intros sched pending; simpl; [done |].
  destruct (pending !! _); [| done].
  by rewrite graphCalls_app, graphCalls_resumeLog, IH.
Qed.

(** C6.  A search filter that is present (a non-empty text, the test of
    the handler being [if (searchQuery)]) goes to the mail API as the
    search clause of the one request that the handler sends, between two
    double quotes and otherwise as the caller wrote it; no filter is
    refused. *)
Theorem search_filter_is_passed_through :
  forall env sched store acct tokenResponse q,
    q <> "" ->
    identity store = Some acct ->
    acquireTokenSilent env acct = inr tokenResponse ->
    graphCalls (trace (handle env sched store (POST_fetch_emails (Some q))))
    = [ (accessToken tokenResponse,
         {| path := "/me/messages";
            select := "id,subject,from,receivedDateTime,body";
            top := 10;
            search := Some (Str.dquote +:+ q +:+ Str.dquote) |}) ].
Proof.
  intros env sched store acct r q Hq Hid Htok.
  unfold handle, route. rewrite serve_fetch_emails. simpl.
  unfold fetchTrace. rewrite Hid, Htok.
  assert (Hreq : messagesRequest (Some q)
                 = {| path := "/me/messages";
                      select := "id,subject,from,receivedDateTime,body";
                      top := 10;
                      search := Some (Str.dquote +:+ q +:+ Str.dquote) |}).
  { unfold messagesRequest, truthy.
    destruct (String.eqb_spec q "") as [-> | _]; [done | reflexivity]. }
  rewrite Hreq. simpl. f_equal.
  destruct (graphGet env (accessToken r) _) as [e | emails]; [done |].
  by rewrite graphCalls_app, graphCalls_startLog, graphCalls_settleLog.
Qed.

Lemma search_filter_is_passed_through_witness :
  graphCalls (trace (handle Demo.env [] Demo.signedIn
                       (POST_fetch_emails (Some "beam AND (S-102"))))
  = [ ("tok-2",
       {| path := "/me/messages";
          select := "id,subject,from,receivedDateTime,body";
          top := 10;
          search := Some (Str.dquote +:+ "beam AND (S-102" +:+ Str.dquote) |}) ].
Proof.
  apply (search_filter_is_passed_through Demo.env [] Demo.signedIn Demo.alice
           {| accessToken := "tok-2"; account := Some Demo.alice |}
           "beam AND (S-102").
  - discriminate.
  - reflexivity.
  - reflexivity.
Defined.

(** ** The access token stays inside *)

Section Variants.

Context {env1 env2 : Env} (V : TokenVariant env1 env2).

Lemma redirectUri_variant : redirectUri env1 = redirectUri env2.
Proof. unfold redirectUri, isProduction. by rewrite (tv_node _ _ V). Qed.

Lemma attempt_variant reply : attempt env1 reply = attempt env2 reply.
Proof.
  unfold attempt. destruct reply as [m | [[m | t]]]; simpl; try done.
  by rewrite (tv_parse _ _ V).
Qed.

Lemma tasksFrom_variant emails : forall k,
  tasksFrom env1 k emails = tasksFrom env2 k emails.
Proof.
  induction emails as [| e rest IH]; intros k; simpl; [done |].
  unfold taskOf. by rewrite (tv_gemini _ _ V), IH.
Qed.

Lemma analyzed_variant emails : analyzed env1 emails = analyzed env2 emails.
Proof.
  unfold analyzed. rewrite tasksFrom_variant. apply list_fmap_ext.
  intros i t _. unfold taskValue, analysisOf. by rewrite attempt_variant.
Qed.

Lemma settleLog_variant fuel : forall sched pending,
  settleLog env1 fuel sched pending = settleLog env2 fuel sched pending.
Proof.
  induction fuel as [| fuel IH]; intros sched pending; simpl; [done |].
  destruct (pending !! _); [| done].
  unfold resumeLog. by rewrite attempt_variant, IH.
Qed.

Lemma fetch_emails_variant sched store searchQuery :
  expectedResponse env1 store searchQuery = expectedResponse env2 store searchQuery
  /\ redact <$> fetchTrace env1 sched store searchQuery
     = redact <$> fetchTrace env2 sched store searchQuery.
Proof.
  unfold expectedResponse, fetchTrace, classify.
  destruct (identity store) as [acct |]; [| done].
  pose proof (tv_silent _ _ V acct) as Hs.
  pose proof (tv_graph _ _ V acct) as Hg.
  destruct (acquireTokenSilent env1 acct) as [e1 | r1],
           (acquireTokenSilent env2 acct) as [e2 | r2]; simpl in Hs; try done.
  - subst e2. by destruct e1.
  - rewrite (Hg r1 r2 _ eq_refl eq_refl).
    destruct (graphGet env2 (accessToken r2) (messagesRequest searchQuery));
      simpl; [done |].
    by rewrite analyzed_variant, tasksFrom_variant, settleLog_variant.
Qed.

Lemma redirect_variant store code :
  let o1 := serve store (redirect env1 code) in
  let o2 := serve store (redirect env2 code) in
  stored o1 = stored o2 /\ response o1 = response o2
  /\ uncaught o1 = uncaught o2 /\ trace o1 = trace o2.
Proof.
  unfold serve, redirect, bind, tryCatch, console_log, emit, await. simpl.
  pose proof (tv_code _ _ V code) as Hc.
  destruct (acquireTokenByCode env1 code) as [e1 | r1],
           (acquireTokenByCode env2 code) as [e2 | r2]; simpl in Hc; try done.
  - by subst e2.
  - simpl. by rewrite Hc.
Qed.

Lemma login_variant store :
  serve store (login env1) = serve store (login env2).
Proof.
  unfold serve, login, bind, console_log, emit. simpl.
  rewrite redirectUri_variant, (tv_node _ _ V), (tv_url _ _ V).
  by destruct (getAuthCodeUrl env2).
Qed.

End Variants.

Lemma console_redact t : console (redact <$> t) = console t.
Proof.
  unfold console. induction t as [| e t IH]; [done |].
  rewrite fmap_cons. destruct e; simpl; by rewrite ?IH.
Qed.

(** C5.  For every request, the session store, the response and the
    console output do not depend on the access token: two runs that
    differ in nothing but the tokens issued by the identity provider
    leave the same store, send the same response and print the same
    lines.  The token occurs in the trace only as the bearer of the
    request to the mail API. *)
Theorem access_token_never_leaves_the_server :
  forall env1 env2 sched store r,
    TokenVariant env1 env2 ->
    let o1 := handle env1 sched store r in
    let o2 := handle env2 sched store r in
    stored o1 = stored o2
    /\ response o1 = response o2
    /\ console (trace o1) = console (trace o2)
    /\ redact <$> trace o1 = redact <$> trace o2
    /\ uncaught o1 = uncaught o2.
Proof.
  intros env1 env2 sched store r V o1 o2.
  assert (H : stored o1 = stored o2 /\ response o1 = response o2
              /\ redact <$> trace o1 = redact <$> trace o2
              /\ uncaught o1 = uncaught o2).
  { unfold o1, o2, handle. destruct r as [| code | | | q]; simpl.
    - by rewrite (login_variant V).
    - destruct (redirect_variant V store code) as (? & ? & ? & Ht).
      by rewrite Ht.
    - done.
    - done.
    - rewrite !serve_fetch_emails. simpl.
      destruct (fetch_emails_variant V sched store q) as [-> ->]. done. }
  destruct H as (? & ? & Ht & ?). repeat split; try done.
  by rewrite <- (console_redact (trace o1)), Ht, console_redact.
Qed.

Lemma DemoRotated_variant : TokenVariant Demo.env DemoRotated.env.
Proof.
  split; try done.
  intros code. simpl. by destruct code as [[| a [| b s]] |]; simpl;
    repeat (case_match; simpl; try done).
Qed.

Lemma access_token_never_leaves_the_server_witness :
  let o1 := handle Demo.env [1] Demo.signedIn (POST_fetch_emails None) in
  let o2 := handle DemoRotated.env [1] Demo.signedIn (POST_fetch_emails None) in
  stored o1 = stored o2
  /\ response o1 = response o2
  /\ console (trace o1) = console (trace o2)
  /\ redact <$> trace o1 = redact <$> trace o2
  /\ uncaught o1 = uncaught o2.
Proof.
  exact (access_token_never_leaves_the_server Demo.env DemoRotated.env [1]
           Demo.signedIn (POST_fetch_emails None) DemoRotated_variant).
Defined.


(** * Further properties of the routes *)

(** ** [/login] and [/redirect], run *)

Lemma handle_login env sched store :
  handle env sched store GET_login
  = {| stored := store;
       response :=
         Some (match getAuthCodeUrl env with
               | inr url => {| status := 302; payload := BLocation url |}
               | inl e => {| status := 500; payload := BError (MsalThrown e) |}
               end);
       trace :=
         [ ConsoleLog "--- LOGIN ATTEMPT ---";
           ConsoleLog ("NODE_ENV is: " +:+ default "undefined" (NODE_ENV env));
           ConsoleLog ("Generated redirectUri is: " +:+ redirectUri env);
           AuthCodeUrlCall (redirectUri env) ]
         ++ match getAuthCodeUrl env with
            | inr _ => []
            | inl e => [ConsoleError (Some "Error getting auth code URL:") (MsalThrown e)]
            end;
       uncaught := None |}.
Proof.
  unfold handle, serve, route, login, bind, console_log, console_error, emit.
  simpl. by destruct (getAuthCodeUrl env).
Qed.

Lemma handle_redirect env sched store code :
  handle env sched store (GET_redirect code)
  = match acquireTokenByCode env code with
    | inr result =>
        {| stored := Some {| sessionAccount := account result |};
           response := Some {| status := 200;
                               payload := BText "<script>window.close();</script>" |};
           trace := [ConsoleLog "--- REDIRECT HIT ---"; TokenByCodeCall code];
           uncaught := None |}
    | inl e =>
        {| stored := store;
           response := Some {| status := 500; payload := BError (MsalThrown e) |};
           trace := [ ConsoleLog "--- REDIRECT HIT ---"; TokenByCodeCall code;
                      ConsoleError (Some "Error acquiring token by code:")
                        (MsalThrown e) ];
           uncaught := None |}
    end.
Proof.
  unfold handle, serve, route, redirect.
  unfold bind, tryCatch, console_log, console_error, emit, await. simpl.
  by destruct (acquireTokenByCode env code).
Qed.

Lemma handle_fetch_emails env sched store searchQuery :
  handle env sched store (POST_fetch_emails searchQuery)
  = {| stored := store;
       response := Some (expectedResponse env store searchQuery);
       trace := fetchTrace env sched store searchQuery;
       uncaught := None |}.
Proof. apply serve_fetch_emails. Qed.

(** X1.  [GET /login] answers 302 to the URL that the identity provider
    built, or, when the provider fails, 500 with the error, which it
    also logs; the redirect URI it hands to the provider is the one it
    logs, and it is the production URI exactly when [NODE_ENV] is
    "production". *)
Theorem login_redirects_to_the_provider :
  forall env sched store,
    let o := handle env sched store GET_login in
    (forall url, getAuthCodeUrl env = inr url ->
                 response o = Some {| status := 302; payload := BLocation url |}
                 /\ console (trace o)
                    = [ ConsoleLog "--- LOGIN ATTEMPT ---";
                        ConsoleLog ("NODE_ENV is: " +:+ default "undefined" (NODE_ENV env));
                        ConsoleLog ("Generated redirectUri is: " +:+ redirectUri env) ])
    /\ (forall e, getAuthCodeUrl env = inl e ->
                  response o = Some {| status := 500; payload := BError (MsalThrown e) |}
                  /\ last (trace o)
                     = Some (ConsoleError (Some "Error getting auth code URL:")
                               (MsalThrown e)))
    /\ serviceCalls (trace o) = [AuthCodeUrlCall (redirectUri env)]
    /\ (redirectUri env = "https://backend-1iqu.onrender.com/redirect"
        <-> NODE_ENV env = Some "production")
    /\ (redirectUri env = "http://localhost:3000/redirect"
        <-> NODE_ENV env <> Some "production").
Proof.
  intros env sched store o. unfold o. rewrite handle_login. simpl.
  split; [| split; [| split; [| split]]].
  - intros url ->. done.
  - intros e ->. done.
  - by destruct (getAuthCodeUrl env).
  - unfold redirectUri, isProduction. destruct (NODE_ENV env) as [v |]; [| done].
    destruct (String.eqb_spec v "production") as [-> | Hne]; [done |].
    split; [done | by intros [= ->]].
  - unfold redirectUri, isProduction. destruct (NODE_ENV env) as [v |]; [| done].
    destruct (String.eqb_spec v "production") as [-> | Hne]; [done |].
    split; [by intros _ [= ->] | done].
Qed.

Lemma login_redirects_to_the_provider_witness :
  response (handle Demo.env [] None GET_login)
  = Some {| status := 302;
            payload := BLocation "https://login.microsoftonline.com/common/oauth2/v2.0/authorize" |}
  /\ response (handle DemoNoAccount.env [] None GET_login)
     = Some {| status := 500;
               payload := BError (MsalThrown (AuthError "endpoints_resolution_error" "no network")) |}.
Proof.
  split.
  - exact (proj1 (proj1 (login_redirects_to_the_provider Demo.env [] None) _ eq_refl)).
  - exact (proj1 (proj1 (proj2 (login_redirects_to_the_provider
                                  DemoNoAccount.env [] None)) _ eq_refl)).
Defined.

(** X2.  When the code exchange of [/redirect] fails, the handler answers
    500 with the error of the provider as body, logs it, and leaves the
    session store as it was: a browser that was signed in stays signed
    in. *)
Theorem failed_exchange_keeps_the_session :
  forall env sched store code e,
    acquireTokenByCode env code = inl e ->
    let o := handle env sched store (GET_redirect code) in
    stored o = store
    /\ response o = Some {| status := 500; payload := BError (MsalThrown e) |}
    /\ trace o = [ ConsoleLog "--- REDIRECT HIT ---"; TokenByCodeCall code;
                   ConsoleError (Some "Error acquiring token by code:") (MsalThrown e) ]
    /\ uncaught o = None.
Proof.
  intros env sched store code e He o. unfold o.
  rewrite handle_redirect, He. done.
Qed.

Lemma failed_exchange_keeps_the_session_witness :
  let o := handle Demo.env [] Demo.signedIn (GET_redirect None) in
  stored o = Demo.signedIn
  /\ response o
     = Some {| status := 500;
               payload := BError (MsalThrown (AuthError "invalid_grant"
                                    "The code is malformed or expired.")) |}
  /\ trace o = [ ConsoleLog "--- REDIRECT HIT ---"; TokenByCodeCall None;
                 ConsoleError (Some "Error acquiring token by code:")
                   (MsalThrown (AuthError "invalid_grant"
                                  "The code is malformed or expired.")) ]
  /\ uncaught o = None.
Proof.
  exact (failed_exchange_keeps_the_session Demo.env [] Demo.signedIn None
           (AuthError "invalid_grant" "The code is malformed or expired.") eq_refl).
Defined.

(** X3.  [/redirect] assigns [response.account] to the session without
    looking at it: when the exchange succeeds and the provider returns no
    account, the handler still answers 200, the identity that the session
    held is gone, and the next [GET /me] answers [{loggedIn: false}]. *)
Theorem exchange_without_account_signs_out :
  forall env sched sched' store code result,
    acquireTokenByCode env code = inr result ->
    account result = None ->
    let o := handle env sched store (GET_redirect code) in
    response o = Some {| status := 200;
                         payload := BText "<script>window.close();</script>" |}
    /\ identity (stored o) = None
    /\ response (handle env sched' (stored o) GET_me)
       = Some {| status := 200; payload := BJson (JObj [("loggedIn", JBool false)]) |}.
Proof.
  intros env sched sched' store code result Hcode Hacct o. unfold o.
  rewrite handle_redirect, Hcode. simpl. rewrite handle_me. simpl.
  by rewrite Hacct.
Qed.

Lemma exchange_without_account_signs_out_witness :
  let o := handle DemoNoAccount.env [] Demo.signedIn (GET_redirect (Some "c")) in
  response o = Some {| status := 200;
                       payload := BText "<script>window.close();</script>" |}
  /\ identity (stored o) = None
  /\ response (handle DemoNoAccount.env [] (stored o) GET_me)
     = Some {| status := 200; payload := BJson (JObj [("loggedIn", JBool false)]) |}.
Proof.
  exact (exchange_without_account_signs_out DemoNoAccount.env [] [] Demo.signedIn
           (Some "c") {| accessToken := "tok-3"; account := None |}
           eq_refl eq_refl).
Defined.

(** X5.  The identity of a session changes in two ways only: [/logout]
    removes it, and a successful code exchange of [/redirect] replaces it
    by the account that the provider returned.  Every other request, and
    a failed exchange, leaves it as it is. *)
Theorem identity_changes_only_by_exchange_or_logout :
  forall env sched store r,
    let after := stored (handle env sched store r) in
    identity after = identity store
    \/ (r = GET_logout /\ identity after = None)
    \/ (exists code result,
           r = GET_redirect code
           /\ acquireTokenByCode env code = inr result
           /\ identity after = account result).
Proof.
  intros env sched store r after. unfold after. clear after.
  destruct r as [| code | | | q].
  - left. by rewrite handle_login.
  - rewrite handle_redirect.
    destruct (acquireTokenByCode env code) as [e | result] eqn:Hcode.
    + by left.
    + right. right. by exists code, result.
  - right. left. by rewrite handle_logout.
  - left. by rewrite handle_me.
  - left. by rewrite handle_fetch_emails.
Qed.

(** X6.  Over any sequence of requests of a browser, an identity found in
    the session at the end was there at the start or was returned by the
    identity provider for the code of one of the [/redirect] requests of
    the sequence: the server never makes up an identity. *)
Theorem stored_identity_comes_from_the_provider :
  forall env reqs store a,
    identity (runAll env store reqs) = Some a ->
    identity store = Some a
    \/ exists sched code result,
         (sched, GET_redirect code) ∈ reqs
         /\ acquireTokenByCode env code = inr result
         /\ account result = Some a.
Proof.
  intros env reqs. induction reqs as [| [sched r] reqs IH] using rev_ind;
    intros store a Hfinal.
  - by left.
  - unfold runAll in Hfinal. rewrite foldl_snoc in Hfinal. simpl in Hfinal.
    fold (runAll env store reqs) in Hfinal.
    destruct (identity_changes_only_by_exchange_or_logout env sched
                (runAll env store reqs) r)
      as [Hsame | [[_ Hnone] | (code & result & -> & Hcode & Hacct)]].
    + rewrite Hsame in Hfinal. destruct (IH store a Hfinal) as [? | H]; [by left |].
      right. destruct H as (s & c & res & Hin & ? & ?).
      exists s, c, res. split; [| done]. apply elem_of_app. by left.
    + congruence.
    + right. exists sched, code, result. split; [| split; [done | congruence]].
      apply elem_of_app. right. by apply list_elem_of_singleton.
Qed.

Lemma stored_identity_comes_from_the_provider_witness :
  identity None = Some Demo.alice
  \/ exists sched code result,
       (sched, GET_redirect code)
         ∈ [([], GET_me); ([], GET_redirect (Some "validcode"));
            ([1], POST_fetch_emails None)]
       /\ acquireTokenByCode Demo.env code = inr result
       /\ account result = Some Demo.alice.
Proof.
  exact (stored_identity_comes_from_the_provider Demo.env
           [([], GET_me); ([], GET_redirect (Some "validcode"));
            ([1], POST_fetch_emails None)]
           None Demo.alice eq_refl).
Defined.

(** X7.  After [/logout], whatever the session held, [GET /me] answers
    [{loggedIn: false}] and [POST /fetch-emails] answers 401
    "User not authenticated." without a call to any service. *)
Theorem after_logout_the_browser_is_anonymous :
  forall env sched sched1 sched2 store searchQuery,
    let cleared := stored (handle env sched store GET_logout) in
    response (handle env sched1 cleared GET_me)
    = Some {| status := 200; payload := BJson (JObj [("loggedIn", JBool false)]) |}
    /\ response (handle env sched2 cleared (POST_fetch_emails searchQuery))
       = Some {| status := 401; payload := BText "User not authenticated." |}
    /\ trace (handle env sched2 cleared (POST_fetch_emails searchQuery)) = [].
Proof.
  intros env sched sched1 sched2 store q cleared. unfold cleared.
  rewrite handle_logout, handle_me, handle_fetch_emails. done.
Qed.

(** X8.  A browser without an identity makes the server call no service
    that acts for a user: whatever the request, the trace has no silent
    renewal, no request to the mail API and no request to the analysis
    service. *)
Theorem anonymous_requests_reach_no_protected_service :
  forall env sched store r,
    identity store = None ->
    List.filter isProtectedCall (trace (handle env sched store r)) = [].
Proof.
  intros env sched store [| code | | | q] Hid.
  - rewrite handle_login. simpl. by destruct (getAuthCodeUrl env).
  - rewrite handle_redirect. by destruct (acquireTokenByCode env code).
  - by rewrite handle_logout.
  - by rewrite handle_me.
  - rewrite handle_fetch_emails. simpl. unfold fetchTrace. by rewrite Hid.
Qed.

Lemma anonymous_requests_reach_no_protected_service_witness :
  List.filter isProtectedCall
    (trace (handle Demo.env [] None (POST_fetch_emails (Some "beam")))) = [].
Proof.
  exact (anonymous_requests_reach_no_protected_service Demo.env [] None
           (POST_fetch_emails (Some "beam")) eq_refl).
Defined.

(** * Further properties of [/fetch-emails] *)

Lemma serviceCalls_app t1 t2 :
  serviceCalls (t1 ++ t2) = serviceCalls t1 ++ serviceCalls t2.
Proof. apply List.filter_app. Qed.

Lemma serviceCalls_startLog emails : forall k,
  serviceCalls (startLog k emails)
  = imap (fun i email => GeminiCall (k + i) (prompt (contentToAnalyze email))) emails.
Proof.
  induction emails as [| e rest IH]; intros k; [done |].
  rewrite imap_cons. simpl. rewrite Nat.add_0_r. f_equal.
  rewrite IH. apply imap_ext. intros i x _. simpl. f_equal. lia.
Qed.

Lemma serviceCalls_resumeLog env reply : serviceCalls (resumeLog env reply) = [].
Proof. unfold resumeLog. by destruct (attempt env reply). Qed.

Lemma serviceCalls_settleLog env fuel : forall sched pending,
  serviceCalls (settleLog env fuel sched pending) = [].
Proof.
  induction fuel as [| fuel IH]; intros sched pending; simpl; [done |].
  destruct (pending !! _); [| done].
  by rewrite serviceCalls_app, serviceCalls_resumeLog, IH.
Qed.

(** X9.  A request that gets its token and its messages calls the
    services in this order, whatever the order of the replies: silent
    renewal once, the mail API once, with the renewed token, and the
    analysis service once per message, in the order of the fetch, each
    time with the prompt built from the subject and the body without its
    markup. *)
Theorem fetch_emails_calls_each_service_in_turn :
  forall env sched store searchQuery acct tokenResponse emails,
    identity store = Some acct ->
    acquireTokenSilent env acct = inr tokenResponse ->
    graphGet env (accessToken tokenResponse) (messagesRequest searchQuery)
    = inr emails ->
    serviceCalls (trace (handle env sched store (POST_fetch_emails searchQuery)))
    = TokenSilentCall acct
      :: GraphCall (accessToken tokenResponse) (messagesRequest searchQuery)
      :: imap (fun i email =>
                 GeminiCall i
                   (prompt ("Subject: " +:+ subject email +:+ Str.nl +:+ "Body: "
                            +:+ Str.stripTags (content (body email)))))
           emails.
Proof.
  intros env sched store q acct r emails Hid Htok Hget.
  rewrite handle_fetch_emails. simpl. unfold fetchTrace.
  rewrite Hid, Htok, Hget. simpl. do 2 f_equal.
  rewrite serviceCalls_app, serviceCalls_settleLog, app_nil_r.
  by rewrite serviceCalls_startLog.
Qed.

Lemma fetch_emails_calls_each_service_in_turn_witness :
  serviceCalls (trace (handle Demo.env [2; 0; 0] Demo.signedIn (POST_fetch_emails None)))
  = TokenSilentCall Demo.alice
    :: GraphCall "tok-2" (messagesRequest None)
    :: imap (fun i email =>
               GeminiCall i
                 (prompt ("Subject: " +:+ subject email +:+ Str.nl +:+ "Body: "
                          +:+ Str.stripTags (content (body email)))))
         Demo.inbox.
Proof.
  exact (fetch_emails_calls_each_service_in_turn Demo.env [2; 0; 0] Demo.signedIn
           None Demo.alice {| accessToken := "tok-2"; account := Some Demo.alice |}
           Demo.inbox eq_refl eq_refl eq_refl).
Defined.

(** X10.  Whatever the request, the server sends at most one request to
    the mail API, and only from [/fetch-emails], for a session with an
    identity, after silent renewal succeeded, with the token it got; the
    path, the selected fields and the page size of that request do not
    depend on the search filter. *)
Theorem mail_api_is_called_at_most_once_with_the_renewed_token :
  forall env sched store r,
    (graphCalls (trace (handle env sched store r)) = []
     \/ exists searchQuery acct tokenResponse,
          r = POST_fetch_emails searchQuery
          /\ identity store = Some acct
          /\ acquireTokenSilent env acct = inr tokenResponse
          /\ graphCalls (trace (handle env sched store r))
             = [(accessToken tokenResponse, messagesRequest searchQuery)])
    /\ (forall searchQuery,
           path (messagesRequest searchQuery) = "/me/messages"
           /\ select (messagesRequest searchQuery)
              = "id,subject,from,receivedDateTime,body"
           /\ top (messagesRequest searchQuery) = 10).
Proof.
  intros env sched store r. split.
  - destruct r as [| code | | | q].
    + left. rewrite handle_login. simpl. by destruct (getAuthCodeUrl env).
    + left. rewrite handle_redirect. by destruct (acquireTokenByCode env code).
    + left. by rewrite handle_logout.
    + left. by rewrite handle_me.
    + rewrite handle_fetch_emails. simpl. unfold fetchTrace.
      destruct (identity store) as [acct |] eqn:Hid; [| by left].
      destruct (acquireTokenSilent env acct) as [[c m | c m] | tr] eqn:Htok;
        [by left | by left |].
      right. exists q, acct, tr. repeat split; try done. simpl. f_equal.
      destruct (graphGet env (accessToken tr) (messagesRequest q)); [done |].
      by rewrite graphCalls_app, graphCalls_startLog, graphCalls_settleLog.
  - intros q. unfold messagesRequest. by destruct (truthy q).
Qed.

Lemma settleLog_Permutation env fuel : forall sched pending,
  length pending = fuel ->
  settleLog env fuel sched pending ≡ₚ pending ≫= (fun t => resumeLog env (reply t)).
Proof.
  induction fuel as [| fuel IH]; intros sched pending Hlen.
  - by destruct pending.
  - simpl.
    assert (Hc : hd 0 sched `mod` length pending < length pending).
    { apply Nat.mod_upper_bound. lia. }
    destruct (lookup_lt_is_Some_2 _ _ Hc) as [t Ht]. rewrite Ht.
    set (c := hd 0 sched `mod` length pending) in *.
    rewrite (bind_Permutation _ _ _ (delete_Permutation pending c t Ht)).
    rewrite bind_cons. f_equiv. apply IH.
    rewrite length_delete by eauto. lia.
Qed.

Lemma fetchTrace_Permutation env sched1 sched2 store searchQuery :
  fetchTrace env sched1 store searchQuery ≡ₚ fetchTrace env sched2 store searchQuery.
Proof.
  unfold fetchTrace. destruct (identity store) as [acct |]; [| done].
  f_equiv. destruct (acquireTokenSilent env acct) as [e | tr]; [done |].
  f_equiv. destruct (graphGet env (accessToken tr) (messagesRequest searchQuery))
    as [e | emails]; [done |].
  f_equiv.
  rewrite !settleLog_Permutation by apply tasksFrom_length. done.
Qed.

(** X11.  The order in which the analysis replies arrive changes nothing
    but the order of the lines of the trace: for two orders, the store,
    the response and the calls to the services are the same, and the one
    trace is a rearrangement of the other. *)
Theorem completion_order_only_rearranges_the_trace :
  forall env sched1 sched2 store r,
    let o1 := handle env sched1 store r in
    let o2 := handle env sched2 store r in
    stored o1 = stored o2
    /\ response o1 = response o2
    /\ uncaught o1 = uncaught o2
    /\ serviceCalls (trace o1) = serviceCalls (trace o2)
    /\ trace o1 ≡ₚ trace o2.
Proof.
  intros env sched1 sched2 store [| code | | | q]; try done.
  simpl. rewrite !handle_fetch_emails. simpl.
  repeat split; [| apply fetchTrace_Permutation].
  unfold fetchTrace. destruct (identity store) as [acct |]; [| done].
  simpl. f_equal. destruct (acquireTokenSilent env acct) as [e | tr]; [done |].
  simpl. f_equal.
  destruct (graphGet env (accessToken tr) (messagesRequest q)); [done |].
  by rewrite !serviceCalls_app, !serviceCalls_settleLog.
Qed.

Lemma filter_length_Permutation {A} (f : A -> bool) (l1 l2 : list A) :
  l1 ≡ₚ l2 -> length (List.filter f l1) = length (List.filter f l2).
Proof.
  induction 1 as [| x l1 l2 _ IH | x y l | l1 l2 l3 _ IH1 _ IH2]; simpl.
  - done.
  - destruct (f x); simpl; by rewrite IH.
  - by destruct (f x), (f y).
  - by rewrite IH1.
Qed.

Lemma analysisErrors_startLog emails : forall k,
  List.filter isAnalysisError (startLog k emails) = [].
Proof. induction emails as [| e rest IH]; intros k; simpl; [done | apply IH]. Qed.

Lemma analysisErrors_tasks env tasks :
  length (List.filter isAnalysisError
            (tasks ≫= (fun t => resumeLog env (reply t))))
  = length (List.filter (fun t => failedb env (reply t)) tasks).
Proof.
  induction tasks as [| t rest IH]; [done |].
  rewrite bind_cons, List.filter_app, length_app, IH. simpl.
  unfold resumeLog, failedb. by destruct (attempt env (reply t)).
Qed.

(** X12.  The console gets one "Error calling Gemini API:" line for each
    message whose analysis failed, and no other: on a request that
    fetched its messages, the number of these lines is the number of
    failed analyses, whatever the order of the replies. *)
Theorem one_error_line_per_failed_analysis :
  forall env sched store searchQuery acct tokenResponse emails,
    identity store = Some acct ->
    acquireTokenSilent env acct = inr tokenResponse ->
    graphGet env (accessToken tokenResponse) (messagesRequest searchQuery)
    = inr emails ->
    length (List.filter isAnalysisError
              (trace (handle env sched store (POST_fetch_emails searchQuery))))
    = length (List.filter
                (fun ie => failedb env
                             (generateContent env ie.1 (prompt (contentToAnalyze ie.2))))
                (imap pair emails))
    /\ (forall reply, failedb env reply = true <-> Failed env reply).
Proof.
  intros env sched store q acct r emails Hid Htok Hget. split.
  - rewrite handle_fetch_emails. simpl. unfold fetchTrace.
    rewrite Hid, Htok, Hget. simpl.
    rewrite List.filter_app, analysisErrors_startLog. simpl.
    rewrite (filter_length_Permutation _ _ _
               (settleLog_Permutation env (length emails) sched
                  (tasksFrom env 0 emails) (tasksFrom_length env emails 0))).
    rewrite analysisErrors_tasks. clear.
    change (imap pair emails) with (imap (fun i e => (0 + i, e)) emails).
    generalize 0. induction emails as [| e rest IH]; intros k; [done |].
    rewrite imap_cons. simpl. rewrite Nat.add_0_r.
    assert (Hrest : imap ((fun i e0 => (k + i, e0)) ∘ S) rest
                    = imap (fun i e0 => (S k + i, e0)) rest).
    { apply imap_ext. intros i x _. simpl. f_equal. lia. }
    rewrite Hrest.
    destruct (failedb env (generateContent env k (prompt (contentToAnalyze e))));
      simpl; by rewrite IH.
  - intros reply. rewrite attempt_failed. unfold failedb.
    destruct (attempt env reply); split; try done; [by eexists | by intros [? ?]].
Qed.

Lemma one_error_line_per_failed_analysis_witness :
  length (List.filter isAnalysisError
            (trace (handle DemoFlaky.env [1; 1; 0] Demo.signedIn (POST_fetch_emails None))))
  = 3.
Proof.
  exact (proj1 (one_error_line_per_failed_analysis DemoFlaky.env [1; 1; 0]
                  Demo.signedIn None Demo.alice
                  {| accessToken := "tok-2"; account := Some Demo.alice |}
                  Demo.inbox eq_refl eq_refl eq_refl)).
Defined.

(** X13.  When silent renewal fails otherwise than by asking for
    interaction, or the mail API fails, the handler prints the error with
    one [console.error] and answers 500 with a fixed text that has nothing
    of the error in it; the two 401 answers print nothing. *)
Theorem fetch_emails_logs_what_it_hides :
  forall env sched store searchQuery,
    let o := handle env sched store (POST_fetch_emails searchQuery) in
    (forall acct c m,
        identity store = Some acct ->
        acquireTokenSilent env acct = inl (AuthError c m) ->
        console (trace o) = [ConsoleError None (MsalThrown (AuthError c m))]
        /\ response o = Some serverError)
    /\ (forall acct tokenResponse e,
           identity store = Some acct ->
           acquireTokenSilent env acct = inr tokenResponse ->
           graphGet env (accessToken tokenResponse) (messagesRequest searchQuery)
           = inl e ->
           console (trace o) = [ConsoleError None (GraphThrown e)]
           /\ response o = Some serverError)
    /\ (forall resp, response o = Some resp -> status resp = 401 ->
                     console (trace o) = []).
Proof.
  intros env sched store q o. unfold o. rewrite handle_fetch_emails. simpl.
  unfold expectedResponse, fetchTrace, classify.
  split; [| split].
  - intros acct c m Hid Htok. by rewrite Hid, Htok.
  - intros acct tr e Hid Htok Hget. by rewrite Hid, Htok, Hget.
  - intros resp [= <-]. destruct (identity store) as [acct |]; [| done].
    destruct (acquireTokenSilent env acct) as [[c m | c m] | tr]; try done.
    by destruct (graphGet env (accessToken tr) (messagesRequest q)).
Qed.

Lemma fetch_emails_logs_what_it_hides_witness :
  let o := handle DemoNoAccount.env [] Demo.signedIn (POST_fetch_emails None) in
  console (trace o)
  = [ConsoleError None
       (GraphThrown {| statusCode := 403; code := "ErrorAccessDenied";
                       message := "Access is denied." |})]
  /\ response o = Some serverError.
Proof.
  exact (proj1 (proj2 (fetch_emails_logs_what_it_hides DemoNoAccount.env []
                         Demo.signedIn None))
           Demo.alice {| accessToken := "tok-2"; account := Some Demo.alice |}
           _ eq_refl eq_refl eq_refl).
Defined.

(** * Properties of the text functions *)

#[local] Arguments String.append !s1 s2 : simpl nomatch.

Lemma chars_app s1 s2 : chars (s1 +:+ s2) = chars s1 ++ chars s2.
Proof. induction s1 as [| c s1 IH]; simpl; [done | by rewrite <- IH]. Qed.

Lemma append_nil_r s : s +:+ "" = s.
Proof. induction s as [| c s IH]; simpl; [done | by rewrite IH]. Qed.

Lemma append_assoc s1 s2 s3 : (s1 +:+ s2) +:+ s3 = s1 +:+ s2 +:+ s3.
Proof. induction s1 as [| c s1 IH]; simpl; [done | by rewrite IH]. Qed.

(** ** [stripTags] (server.js:141) *)

Lemma stripTags_from_no_lt s : forall inTag,
  lt_char ∉ chars (Str.stripTags_from inTag s).
Proof.
  induction s as [| c r IH]; intros inTag; simpl.
  - apply not_elem_of_nil.
  - destruct inTag.
    + destruct (Ascii.eqb c ">"); apply IH.
    + destruct (Ascii.eqb_spec c "<") as [-> | Hne]; [apply IH |].
      simpl. apply not_elem_of_cons. split; [| apply IH].
      intros Heq. apply Hne. by rewrite <- Heq.
Qed.

Lemma stripTags_from_plain s r :
  lt_char ∉ chars s ->
  Str.stripTags_from false (s +:+ r) = s +:+ Str.stripTags_from false r.
Proof.
  induction s as [| c s IH]; intros Hs; [done |].
  simpl in Hs. apply not_elem_of_cons in Hs as [Hc Hs]. simpl.
  destruct (Ascii.eqb_spec c "<") as [-> | _]; [done |].
  by rewrite IH.
Qed.

Lemma stripTags_from_inside t r :
  gt_char ∉ chars t ->
  Str.stripTags_from true (t +:+ String ">" r) = Str.stripTags_from false r.
Proof.
  induction t as [| c t IH]; intros Ht; [done |].
  simpl in Ht. apply not_elem_of_cons in Ht as [Hc Ht]. simpl.
  destruct (Ascii.eqb_spec c ">") as [-> | _]; [done |].
  by apply IH.
Qed.

Lemma stripTags_from_unclosed t :
  gt_char ∉ chars t -> Str.stripTags_from true t = "".
Proof.
  induction t as [| c t IH]; intros Ht; [done |].
  simpl in Ht. apply not_elem_of_cons in Ht as [Hc Ht]. simpl.
  destruct (Ascii.eqb_spec c ">") as [-> | _]; [done |].
  by apply IH.
Qed.

(** X14.  The text that [stripTags] returns has no [<] in it, whatever
    the input. *)
Theorem stripTags_leaves_no_opening_bracket :
  forall s, lt_char ∉ chars (Str.stripTags s).
Proof. intros s. apply stripTags_from_no_lt. Qed.

(** X15.  [stripTags] returns a text without [<] as it is, and stripping
    twice is stripping once. *)
Theorem stripTags_keeps_plain_text :
  forall s,
    (lt_char ∉ chars s -> Str.stripTags s = s)
    /\ Str.stripTags (Str.stripTags s) = Str.stripTags s.
Proof.
  assert (Hplain : forall s, lt_char ∉ chars s -> Str.stripTags s = s).
  { intros s Hs. unfold Str.stripTags.
    pose proof (stripTags_from_plain s "" Hs) as H. simpl in H.
    by rewrite !append_nil_r in H. }
  intros s. split; [apply Hplain |].
  apply Hplain, stripTags_leaves_no_opening_bracket.
Qed.

Lemma stripTags_keeps_plain_text_witness :
  Str.stripTags "All good > fine" = "All good > fine".
Proof.
  apply (proj1 (stripTags_keeps_plain_text "All good > fine")).
  unfold chars, lt_char. simpl. rewrite list_elem_of_In. simpl.
  intros H. repeat (destruct H as [H | H]; [discriminate H |]). exact H.
Defined.

(** X16.  A tag, from a [<] to the next [>], is removed with everything
    in it, line ends and further [<] too, and the text after it is
    stripped in turn. *)
Theorem stripTags_removes_a_tag :
  forall before inside after,
    lt_char ∉ chars before ->
    gt_char ∉ chars inside ->
    Str.stripTags (before +:+ "<" +:+ inside +:+ ">" +:+ after)
    = before +:+ Str.stripTags after.
Proof.
  intros before inside after Hb Hi. unfold Str.stripTags.
  rewrite stripTags_from_plain by done. f_equal. simpl.
  by apply stripTags_from_inside.
Qed.

Lemma stripTags_removes_a_tag_witness :
  Str.stripTags ("Dear all, " +:+ "<" +:+ "br /" +:+ ">" +:+ "see <b>S-102</b>")
  = "Dear all, " +:+ Str.stripTags "see <b>S-102</b>".
Proof.
  apply (stripTags_removes_a_tag "Dear all, " "br /" "see <b>S-102</b>").
  - unfold chars, lt_char. simpl. rewrite list_elem_of_In. simpl.
    intros H. repeat (destruct H as [H | H]; [discriminate H |]). exact H.
  - unfold chars, gt_char. simpl. rewrite list_elem_of_In. simpl.
    intros H. repeat (destruct H as [H | H]; [discriminate H |]). exact H.
Defined.

(** X17.  A [<] that no [>] follows takes the rest of the text with it:
    what comes after a stray [<] never reaches the analysis. *)
Theorem stripTags_drops_everything_after_a_stray_bracket :
  forall before rest,
    lt_char ∉ chars before ->
    gt_char ∉ chars rest ->
    Str.stripTags (before +:+ "<" +:+ rest) = before.
Proof.
  intros before rest Hb Hr. unfold Str.stripTags.
  rewrite stripTags_from_plain by done. simpl.
  rewrite stripTags_from_unclosed by done. apply append_nil_r.
Qed.

Lemma stripTags_drops_everything_after_a_stray_bracket_witness :
  Str.stripTags ("if load " +:+ "<" +:+ " 40 kN, approve the change order")
  = "if load ".
Proof.
  apply (stripTags_drops_everything_after_a_stray_bracket
           "if load " " 40 kN, approve the change order").
  - unfold chars, lt_char. simpl. rewrite list_elem_of_In. simpl.
    intros H. repeat (destruct H as [H | H]; [discriminate H |]). exact H.
  - unfold chars, gt_char. simpl. rewrite list_elem_of_In. simpl.
    intros H. repeat (destruct H as [H | H]; [discriminate H |]). exact H.
Defined.

(** ** [jsonString] (server.js:68) *)

Lemma removeAll_from_plain pat p0 p s r :
  pat = String p0 p ->
  p0 ∉ chars s ->
  Str.removeAll_from pat 0 (s +:+ r) = s +:+ Str.removeAll_from pat 0 r.
Proof.
  intros -> Hs. induction s as [| c s IH]; [done |].
  simpl in Hs. apply not_elem_of_cons in Hs as [Hc Hs].
  simpl. destruct (ascii_dec p0 c) as [-> | _]; [done |].
  simpl. by rewrite IH.
Qed.

Lemma string_of_list_ascii_app l1 l2 :
  string_of_list_ascii (l1 ++ l2)
  = string_of_list_ascii l1 +:+ string_of_list_ascii l2.
Proof. induction l1 as [| c l1 IH]; simpl; [done | by rewrite IH]. Qed.

Lemma rev_append s1 s2 : Str.rev (s1 +:+ s2) = Str.rev s2 +:+ Str.rev s1.
Proof.
  unfold Str.rev. fold (chars (s1 +:+ s2)). rewrite chars_app. unfold chars.
  by rewrite rev_app_distr, string_of_list_ascii_app.
Qed.

Lemma rev_rev s : Str.rev (Str.rev s) = s.
Proof.
  unfold Str.rev. rewrite list_ascii_of_string_of_list_ascii, rev_involutive.
  apply string_of_list_ascii_of_string.
Qed.

Lemma length_append s1 s2 :
  String.length (s1 +:+ s2) = String.length s1 + String.length s2.
Proof. induction s1 as [| c s1 IH]; simpl; [done | by rewrite IH]. Qed.

Lemma length_rev s : String.length (Str.rev s) = String.length s.
Proof.
  induction s as [| c s IH]; [done |].
  change (String c s) with (String c "" +:+ s).
  rewrite rev_append, !length_append, IH. simpl. lia.
Qed.

Lemma substring_all s : String.substring 0 (String.length s) s = s.
Proof. induction s as [| c s IH]; simpl; [done | by rewrite IH]. Qed.

Lemma drop_one c s : Str.drop 1 (String c s) = s.
Proof.
  unfold Str.drop. simpl. rewrite Nat.sub_0_r. apply substring_all.
Qed.

(** One white-space character in front of a text that starts with none. *)
Lemma trimStart_fuel_one ws fuel c d s :
  2 <= fuel ->
  Str.leadingSpace ws (String c (String d s)) = Some 1 ->
  Str.leadingSpace ws (String d s) = None ->
  Str.trimStart_fuel ws fuel (String c (String d s)) = String d s.
Proof.
  intros Hfuel Hc Hd. destruct fuel as [| [| fuel]]; [lia | lia |].
  simpl. rewrite Hc, drop_one. by rewrite Hd.
Qed.

Lemma trimStart_fuel_none ws fuel s :
  Str.leadingSpace ws s = None -> Str.trimStart_fuel ws fuel s = s.
Proof. intros H. destruct fuel; simpl; [done | by rewrite H]. Qed.

Lemma trim_object_between_newlines mid :
  Str.trim (Str.nl +:+ "{" +:+ mid +:+ "}" +:+ Str.nl) = "{" +:+ mid +:+ "}".
Proof.
  unfold Str.trim.
  assert (Hstart : Str.trimStart (Str.nl +:+ "{" +:+ mid +:+ "}" +:+ Str.nl)
                   = "{" +:+ mid +:+ "}" +:+ Str.nl).
  { unfold Str.trimStart. apply trimStart_fuel_one; [simpl; lia | done | done]. }
  rewrite Hstart. unfold Str.trimEnd.
  assert (Hrev : Str.rev ("{" +:+ mid +:+ "}" +:+ Str.nl)
                 = String "010" (String "}" (Str.rev mid +:+ "{"))).
  { change ("{" +:+ mid +:+ "}" +:+ Str.nl)
      with (String "{" "" +:+ mid +:+ String "}" Str.nl).
    rewrite !rev_append. by rewrite !append_assoc. }
  rewrite Hrev.
  rewrite trimStart_fuel_one; [| simpl; rewrite length_append; simpl; lia | done | done].
  change (String "}" (Str.rev mid +:+ "{"))
    with (String "}" "" +:+ Str.rev mid +:+ String "{" "").
  rewrite !rev_append, rev_rev. by rewrite !append_assoc.
Qed.

Lemma trim_object mid :
  Str.trim ("{" +:+ mid +:+ "}") = "{" +:+ mid +:+ "}".
Proof.
  unfold Str.trim, Str.trimStart. rewrite trimStart_fuel_none by done.
  unfold Str.trimEnd.
  assert (Hrev : Str.rev ("{" +:+ mid +:+ "}") = String "}" (Str.rev mid +:+ "{")).
  { change ("{" +:+ mid +:+ "}")
      with (String "{" "" +:+ mid +:+ String "}" "").
    rewrite !rev_append. by rewrite !append_assoc. }
  rewrite Hrev. rewrite trimStart_fuel_none by done.
  change (String "}" (Str.rev mid +:+ "{"))
    with (String "}" "" +:+ Str.rev mid +:+ String "{" "").
  rewrite !rev_append, rev_rev. by rewrite !append_assoc.
Qed.

(** X18.  [jsonString] unwraps a JSON object that the service put into
    a code fence, marked [json] or not, on lines of its own, and it
    returns a bare object as it is: the text that goes to [JSON.parse]
    is the object, from its [{] to its [}]. *)
Theorem jsonString_unwraps_a_fenced_object :
  forall mid,
    backtick_char ∉ chars mid ->
    let object := "{" +:+ mid +:+ "}" in
    jsonString (fence +:+ "json" +:+ Str.nl +:+ object +:+ Str.nl +:+ fence) = object
    /\ jsonString (fence +:+ Str.nl +:+ object +:+ Str.nl +:+ fence) = object
    /\ jsonString object = object.
Proof.
  intros mid Hmid object.
  assert (Hobj : backtick_char ∉ chars (Str.nl +:+ object +:+ Str.nl)).
  { unfold object. rewrite !chars_app, !not_elem_of_app. repeat split; try done.
    - by intros ?%list_elem_of_singleton.
    - by intros ?%list_elem_of_singleton.
    - by intros ?%list_elem_of_singleton.
    - by intros ?%list_elem_of_singleton. }
  assert (Hobj' : backtick_char ∉ chars object).
  { rewrite !chars_app, !not_elem_of_app in Hobj. tauto. }
  assert (Hfenced : forall pat p, pat = String backtick_char p ->
            Str.removeAll_from pat 0 (Str.nl +:+ object +:+ Str.nl +:+ fence)
            = (Str.nl +:+ object +:+ Str.nl) +:+ Str.removeAll_from pat 0 fence).
  { intros pat p Hpat. rewrite <- (removeAll_from_plain pat _ p) by done.
    by rewrite !append_assoc. }
  assert (Hplain : forall pat p, pat = String backtick_char p ->
            Str.removeAll pat object = object).
  { intros pat p Hpat. unfold Str.removeAll.
    pose proof (removeAll_from_plain pat _ p object "" Hpat Hobj') as H.
    rewrite append_nil_r in H. rewrite H. destruct object; [done |].
    by rewrite append_nil_r. }
  unfold jsonString. split; [| split].
  - change (Str.removeAll (fence +:+ "json")
              (fence +:+ "json" +:+ Str.nl +:+ object +:+ Str.nl +:+ fence))
      with (Str.removeAll_from (fence +:+ "json") 0
              (Str.nl +:+ object +:+ Str.nl +:+ fence)).
    rewrite (Hfenced (fence +:+ "json") (String backtick_char (String backtick_char "json")) eq_refl).
    change (Str.removeAll_from (fence +:+ "json") 0 fence) with fence.
    unfold Str.removeAll. rewrite append_assoc, append_assoc.
    rewrite (Hfenced fence (String backtick_char (String backtick_char "")) eq_refl).
    change (Str.removeAll_from fence 0 fence) with "".
    rewrite append_nil_r. unfold object. rewrite !append_assoc.
    apply trim_object_between_newlines.
  - change (Str.removeAll (fence +:+ "json")
              (fence +:+ Str.nl +:+ object +:+ Str.nl +:+ fence))
      with (fence +:+ Str.removeAll_from (fence +:+ "json") 0
                        (Str.nl +:+ object +:+ Str.nl +:+ fence)).
    rewrite (Hfenced (fence +:+ "json") (String backtick_char (String backtick_char "json")) eq_refl).
    change (Str.removeAll_from (fence +:+ "json") 0 fence) with fence.
    change (Str.removeAll fence (fence +:+ ?x))
      with (Str.removeAll_from fence 0 x).
    rewrite append_assoc, append_assoc. rewrite (Hfenced fence (String backtick_char (String backtick_char "")) eq_refl).
    change (Str.removeAll_from fence 0 fence) with "".
    rewrite append_nil_r. unfold object. rewrite !append_assoc.
    apply trim_object_between_newlines.
  - rewrite (Hplain (fence +:+ "json") (String backtick_char (String backtick_char "json")) eq_refl), (Hplain fence (String backtick_char (String backtick_char "")) eq_refl).
    apply trim_object.
Qed.

Lemma jsonString_unwraps_a_fenced_object_witness :
  jsonString (fence +:+ "json" +:+ Str.nl +:+ ("{" +:+ "x:1" +:+ "}") +:+ Str.nl +:+ fence)
  = "{" +:+ "x:1" +:+ "}".
Proof.
  apply (jsonString_unwraps_a_fenced_object "x:1").
  unfold chars, backtick_char. simpl. rewrite list_elem_of_In. simpl.
  intros H. repeat (destruct H as [H | H]; [discriminate H |]). exact H.
Defined.

(** ** [prompt] (server.js:51-63) *)

Lemma append_inv_tail s1 s2 t : s1 +:+ t = s2 +:+ t -> s1 = s2.
Proof.
  revert s2. induction s1 as [| c s1 IH]; intros [| d s2] H; simpl in H.
  - done.
  - apply (f_equal String.length) in H. simpl in H.
    rewrite length_append in H. lia.
  - apply (f_equal String.length) in H. simpl in H.
    rewrite length_append in H. lia.
  - injection H as -> H. f_equal. by apply IH.
Qed.

(** X19.  The prompt is the text of the e-mail between two fixed texts,
    the instructions before it and the closing rule after it, with
    nothing of the e-mail escaped, cut or changed; so two prompts are
    equal only if the e-mails are. *)
Theorem prompt_wraps_the_content_unchanged :
  (forall emailContent,
      prompt emailContent = promptHead +:+ emailContent +:+ promptTail)
  /\ (forall a b, prompt a = prompt b -> a = b).
Proof.
  assert (Hshape : forall c, prompt c = promptHead +:+ c +:+ promptTail).
  { intros c. reflexivity. }
  split; [exact Hshape |].
  intros a b Hab. rewrite (Hshape a), (Hshape b) in Hab.
  apply (inj (String.append promptHead)) in Hab.
  by apply append_inv_tail in Hab.
Qed.

(** * The second copy of the server *)

Lemma Part001_geminiResume_run env reply st :
  Part001.geminiResume env reply st
  = (inr (match attempt env reply with
          | inr v => v
          | inl _ => Part001.fallback
          end),
     addEvents st (resumeLog env reply)).
Proof.
  unfold Part001.geminiResume, resumeLog, attempt, tryCatch, bind, await.
  destruct reply as [m | [[m | t]]]; simpl; try reflexivity.
  destruct (JSON_parse env (jsonString t)) as [m | v]; simpl.
  - reflexivity.
  - unfold ret. by rewrite addEvents_nil.
Qed.

(** X20.  The two copies of [getGeminiAnalysis] do the same to the state,
    log lines included, and neither throws.  When the analysis does not
    fail they return the same value; when it fails each returns its own
    fallback record, and the two records differ in the summary only. *)
Theorem the_copies_of_getGeminiAnalysis_differ_in_the_summary_only :
  forall env k emailContent st,
    let reply := generateContent env k (prompt emailContent) in
    exists v v' st',
      getGeminiAnalysis env k emailContent st = (inr v, st')
      /\ Part001.getGeminiAnalysis env k emailContent st = (inr v', st')
      /\ (~ Failed env reply -> v = v')
      /\ (Failed env reply -> v = fallback /\ v' = Part001.fallback)
      /\ (forall key, key <> "summary" ->
                      field key fallback = field key Part001.fallback)
      /\ field "summary" fallback <> field "summary" Part001.fallback.
Proof.
  intros env k emailContent st reply. do 3 eexists.
  split; [apply getGeminiAnalysis_run |]. split.
  { unfold Part001.getGeminiAnalysis, bind.
    rewrite geminiRequest_run, Part001_geminiResume_run.
    by rewrite addEvents_app. }
  fold reply. unfold analysisOf. split; [| split; [| split]].
  - intros Hok. destruct (attempt env reply) as [e |] eqn:He; [| done].
    exfalso. apply Hok, attempt_failed. by exists e.
  - intros [e He]%attempt_failed. by rewrite He.
  - intros key Hkey. unfold field, fallback, Part001.fallback.
    cbn [List.find fst snd].
    destruct (String.eqb "summary" key) eqn:E; [| done].
    apply String.eqb_eq in E. by destruct Hkey.
  - done.
Qed.

Lemma the_copies_of_getGeminiAnalysis_differ_in_the_summary_only_witness :
  exists v v' st',
    getGeminiAnalysis Demo.env 1 "Subject: Invoice" (initial None) = (inr v, st')
    /\ Part001.getGeminiAnalysis Demo.env 1 "Subject: Invoice" (initial None)
       = (inr v', st')
    /\ v = fallback /\ v' = Part001.fallback.
Proof.
  destruct (the_copies_of_getGeminiAnalysis_differ_in_the_summary_only
              Demo.env 1 "Subject: Invoice" (initial None))
    as (v & v' & st' & H1 & H2 & _ & Hfail & _).
  exists v, v', st'. split; [exact H1 |]. split; [exact H2 |].
  apply Hfail. simpl. constructor.
Defined.

(** X21.  The two copies hand their redirect URI to the identity
    provider, and outside production it is the same URI, in production
    not.  Outside production [/login] and [/redirect] of the second copy
    leave the same store, send the same response and make the same calls
    as those of [src/server.js].  In every environment the second copy
    prints nothing on the console for these two routes. *)
Theorem the_copies_of_login_and_redirect_answer_alike :
  forall env store code,
    let l := serve store (login env) in
    let l' := serve store (Part001.login env) in
    let r := serve store (redirect env code) in
    let r' := serve store (Part001.redirect env code) in
    console (trace l') = []
    /\ console (trace r') = []
    /\ (NODE_ENV env = Some "production" ->
        Part001.redirectUri env <> redirectUri env)
    /\ (NODE_ENV env <> Some "production" ->
        Part001.redirectUri env = redirectUri env
        /\ stored l' = stored l /\ response l' = response l
        /\ serviceCalls (trace l') = serviceCalls (trace l)
        /\ stored r' = stored r /\ response r' = response r
        /\ serviceCalls (trace r') = serviceCalls (trace r)).
Proof.
  intros env store code.
  unfold serve, login, redirect, Part001.login, Part001.redirect.
  unfold bind, tryCatch, console_log, console_error, emit, await. simpl.
  split; [by destruct (getAuthCodeUrl env) |].
  split; [by destruct (acquireTokenByCode env code) |].
  split.
  - intros Hprod. unfold redirectUri, Part001.redirectUri, isProduction.
    by rewrite Hprod.
  - intros Hne.
    assert (Huri : Part001.redirectUri env = redirectUri env).
    { unfold redirectUri, Part001.redirectUri, isProduction.
      destruct (NODE_ENV env) as [v |]; [| done].
      by destruct (String.eqb_spec v "production") as [-> | _]. }
    rewrite Huri.
    by destruct (getAuthCodeUrl env), (acquireTokenByCode env code).
Qed.

Lemma the_copies_of_login_and_redirect_answer_alike_witness :
  Part001.redirectUri DemoNoAccount.env <> redirectUri DemoNoAccount.env
  /\ serviceCalls (trace (serve None (Part001.login Demo.env)))
     = serviceCalls (trace (serve None (login Demo.env))).
Proof.
  split.
  - exact (proj1 (proj2 (proj2 (the_copies_of_login_and_redirect_answer_alike
                                  DemoNoAccount.env None None))) eq_refl).
  - apply (the_copies_of_login_and_redirect_answer_alike Demo.env None None).
    discriminate.
Defined.
